(** * Name resolution and clarification of the meeting assistant

    A shallow embedding of the name-resolution core of the meeting
    assistant: the variant generator and the candidate aggregator of
    [VectorDatabaseManager] (src/meeting_assistant/core/vector_database.py),
    their older copies in [VectorNameResolver] (main.py), and the
    clarification merge [create_meeting_with_resolved_names] (main.py).

    Conventions of the embedding:
    - a Python [str] is a list of Unicode code points;
    - a Python [float] is a rational number; [round(x, 3)] rounds to the
      nearest multiple of 1/1000, ties to even;
    - a [dict] is an association list in insertion order, since
      [list(d.values())] exposes that order;
    - calls into external libraries (the sentence encoder with the vector
      store, [str.lower], [json.loads], [datetime]) are the fields of the
      class [External]. *)

From Stdlib Require Import List Sorted Permutation ZArith NArith QArith Qround Bool Lia Lqa.
From Stdlib Require Import String Ascii.
Import ListNotations.

Set Implicit Arguments.
Set Warnings "-register-all".

(** ** Python strings *)

Module PyStr.

Definition char := N.
Definition str := list char.

Definition char_eqb (a b : char) : bool := N.eqb a b.

Definition str_eq_dec : forall a b : str, {a = b} + {a <> b} :=
  list_eq_dec N.eq_dec.

Definition str_eqb (a b : str) : bool :=
  if str_eq_dec a b then true else false.

(** Code points of a UTF-8 literal, so that examples can be written as
    text.  Bytes that do not start a well-formed sequence are kept as they
    are. *)
Fixpoint utf8_decode (s : string) : str :=
  match s with
  | EmptyString => []
  | String a rest =>
    let b := N_of_ascii a in
    if N.ltb b 192 then b :: utf8_decode rest
    else if N.ltb b 224 then
      match rest with
      | String a1 rest1 =>
        ((b - 192) * 64 + (N_of_ascii a1 - 128))%N :: utf8_decode rest1
      | EmptyString => [b]
      end
    else if N.ltb b 240 then
      match rest with
      | String a1 (String a2 rest2) =>
        ((b - 224) * 4096 + (N_of_ascii a1 - 128) * 64
         + (N_of_ascii a2 - 128))%N :: utf8_decode rest2
      | _ => b :: utf8_decode rest
      end
    else
      match rest with
      | String a1 (String a2 (String a3 rest3)) =>
        ((b - 240) * 262144 + (N_of_ascii a1 - 128) * 4096
         + (N_of_ascii a2 - 128) * 64 + (N_of_ascii a3 - 128))%N
        :: utf8_decode rest3
      | _ => b :: utf8_decode rest
      end
  end.

Definition u (s : string) : str := utf8_decode s.

(** [str.isspace] on one code point: the characters [str.split()] and
    [str.strip()] treat as whitespace. *)
Definition isspace (c : char) : bool :=
  ((9 <=? c) && (c <=? 13) || (28 <=? c) && (c <=? 32)
   || (c =? 133) || (c =? 160) || (c =? 5760)
   || (8192 <=? c) && (c <=? 8202)
   || (c =? 8232) || (c =? 8233) || (c =? 8239) || (c =? 8287)
   || (c =? 12288))%N.

Fixpoint lstrip (s : str) : str :=
  match s with
  | [] => []
  | c :: s' => if isspace c then lstrip s' else s
  end.

Definition rstrip (s : str) : str := rev (lstrip (rev s)).

(** [s.strip()] *)
Definition strip (s : str) : str := rstrip (lstrip s).

(** Truth value of a string: [if s:] *)
Definition truthy (s : str) : bool :=
  match s with [] => false | _ :: _ => true end.

(** [s.startswith(p)] *)
Fixpoint startswith (p s : str) : bool :=
  match p, s with
  | [], _ => true
  | _ :: _, [] => false
  | a :: p', b :: s' => char_eqb a b && startswith p' s'
  end.

(** [sub in s] *)
Fixpoint contains (sub s : str) : bool :=
  startswith sub s ||
  match s with
  | [] => false
  | _ :: s' => contains sub s'
  end.

(** [s.partition(sep)]: the text before and after the first occurrence of
    [sep], when there is one. *)
Fixpoint partition_at (sep s : str) : option (str * str) :=
  if startswith sep s then Some ([], skipn (List.length sep) s)
  else
    match s with
    | [] => None
    | c :: s' =>
      match partition_at sep s' with
      | Some (b, a) => Some (c :: b, a)
      | None => None
      end
    end.

(** [s.split(sep)[0]] *)
Definition split_first (sep s : str) : str :=
  match partition_at sep s with
  | Some (b, _) => b
  | None => s
  end.

(** [s.split(sep, 1)[1]], defined when [sep in s] *)
Definition split_rest (sep s : str) : option str :=
  match partition_at sep s with
  | Some (_, a) => Some a
  | None => None
  end.

(** [s.split(c)] for a separator of one character *)
Fixpoint split_char_go (c : char) (cur : str) (s : str) : list str :=
  match s with
  | [] => [rev cur]
  | x :: s' =>
    if char_eqb x c then rev cur :: split_char_go c [] s'
    else split_char_go c (x :: cur) s'
  end.

Definition split_char (c : char) (s : str) : list str :=
  split_char_go c [] s.

(** [s.split()]: the whitespace-delimited tokens *)
Fixpoint split_ws_go (cur : str) (s : str) : list str :=
  match s with
  | [] => match cur with [] => [] | _ => [rev cur] end
  | x :: s' =>
    if isspace x then
      match cur with
      | [] => split_ws_go [] s'
      | _ => rev cur :: split_ws_go [] s'
      end
    else split_ws_go (x :: cur) s'
  end.

Definition split_ws (s : str) : list str := split_ws_go [] s.

(** [s.replace(old, new)] for a non-empty [old]: occurrences are replaced
    from the left and do not overlap. *)
Fixpoint replace_go (old new : str) (skip : nat) (s : str) : str :=
  match s with
  | [] => []
  | c :: s' =>
    match skip with
    | S k => replace_go old new k s'
    | O =>
      if startswith old s
      then new ++ replace_go old new (List.length old - 1) s'
      else c :: replace_go old new 0 s'
    end
  end.

Definition replace (old new s : str) : str := replace_go old new 0 s.

(** [sep.join(l)] *)
Fixpoint join (sep : str) (l : list str) : str :=
  match l with
  | [] => []
  | [x] => x
  | x :: l' => x ++ sep ++ join sep l'
  end.

(** A lower-casing that is right on ASCII and on the Turkish capitals with
    a one-character lower case; it instantiates [str.lower] in examples. *)
Definition lower_char (c : char) : char :=
  (if (65 <=? c) && (c <=? 90) then c + 32
   else if c =? 199 then 231       (* Ç *)
   else if c =? 214 then 246       (* Ö *)
   else if c =? 220 then 252       (* Ü *)
   else if c =? 286 then 287       (* Ğ *)
   else if c =? 350 then 351       (* Ş *)
   else c)%N.

Definition lower_tr (s : str) : str := map lower_char s.

End PyStr.

Import PyStr.

(** ** Python floats *)

Module PyFloat.

(** Rounding to the nearest integer, ties to even. *)
Definition round_half_even (q : Q) : Z :=
  let f := Qfloor q in
  match Qcompare (q - inject_Z f) (1 # 2) with
  | Lt => f
  | Gt => (f + 1)%Z
  | Eq => if Z.even f then f else (f + 1)%Z
  end.

(** [round(x, 3)] *)
Definition round3 (x : Q) : Q := Qmake (round_half_even (x * 1000)) 1000.

(** [a >= b] *)
Definition ge (a b : Q) : bool := Qle_bool b a.

(** [a > b] *)
Definition gt (a b : Q) : bool := negb (Qle_bool a b).

End PyFloat.

Import PyFloat.

(** ** Data model *)

(** A row of the user table, and the metadata stored with each indexed
    variant: [{'user_id', 'full_name', 'email_address'}]. *)
Record user := mk_user {
  user_id : Z;
  full_name : str;
  email_address : str
}.

(** One raw hit of the vector store: the metadata of the variant and its
    distance to the query. *)
Definition hit := (user * Q)%type.

(** An entry of [user_matches]:
    [{'id', 'full_name', 'email_address', 'similarity'}]. *)
Record candidate := mk_candidate {
  id : Z;
  c_full_name : str;
  c_email_address : str;
  similarity : Q
}.

(** JSON values as [json.loads] returns them. *)
Inductive json :=
| JNull
| JBool (b : bool)
| JNum (q : Q)
| JStr (s : str)
| JList (l : list json)
| JDict (d : list (str * json)).

(** Exceptions the modelled code can raise, and results of code that may
    raise. *)
Inductive exn := IndexError | AttributeError | ValueError | DateTimeError.

Inductive result (A : Type) :=
| Ok (a : A)
| Raise (e : exn).

Arguments Ok {A} a.
Arguments Raise {A} e.

(** The external collaborators: [str.lower]; the sentence encoder followed
    by [collection.query(query_embeddings, n_results)], as a function of
    the query text and [n_results]; [json.loads], [None] when it raises;
    the [datetime] arithmetic of the meeting tool, from the day offset,
    the hour and the duration in minutes to the ISO texts of start and end,
    [None] when it raises; [str.isdigit]; and the decimal text of [int(s)],
    [None] when [int] raises. *)
Class External := {
  lower : str -> str;
  collection_query : str -> nat -> list hit;
  json_loads : str -> option json;
  schedule : Z -> Z -> Z -> option (str * str);
  str_isdigit : str -> bool;
  int_text : str -> option str
}.

(** ** Grouping the raw hits by user *)

Module Grouping.

Definition user_matches := list (Z * candidate).

(** [user_id in user_matches] and [user_matches[user_id]] *)
Fixpoint dict_get (k : Z) (d : user_matches) : option candidate :=
  match d with
  | [] => None
  | (k', c) :: d' => if Z.eqb k k' then Some c else dict_get k d'
  end.

(** [user_matches[user_id] = c]: an existing key keeps its position, a new
    key goes last. *)
Fixpoint dict_set (k : Z) (c : candidate) (d : user_matches) : user_matches :=
  match d with
  | [] => [(k, c)]
  | (k', c') :: d' =>
    if Z.eqb k k' then (k, c) :: d' else (k', c') :: dict_set k c d'
  end.

(** [list(user_matches.values())] *)
Definition values (d : user_matches) : list candidate := map snd d.

Definition keys (d : user_matches) : list Z := map fst d.

(** The body of the loop over [search_results['metadatas'][0]]. *)
Definition group_step (threshold : Q) (d : user_matches) (h : hit)
  : user_matches :=
  let metadata := fst h in
  let similarity_ := 1 - snd h in
  if ge similarity_ threshold then
    let entry :=
      mk_candidate (user_id metadata) (full_name metadata)
                   (email_address metadata) (round3 similarity_) in
    match dict_get (user_id metadata) d with
    | None => dict_set (user_id metadata) entry d
    | Some c =>
      if gt similarity_ (similarity c)
      then dict_set (user_id metadata) entry d
      else d
    end
  else d.

Definition group_by_user (threshold : Q) (hits : list hit) : user_matches :=
  fold_left (group_step threshold) hits [].

(** Vocabulary for the properties: a hit clears the threshold; the entry
    the loop stores for a hit; adding a key the way a dictionary does. *)
Definition passes (threshold : Q) (h : hit) : bool :=
  ge (1 - snd h) threshold.

Definition entry_of (h : hit) : candidate :=
  mk_candidate (user_id (fst h)) (full_name (fst h))
               (email_address (fst h)) (round3 (1 - snd h)).

Definition add_key (l : list Z) (k : Z) : list Z :=
  if existsb (Z.eqb k) l then l else l ++ [k].

(** The distinct keys of a list, in the order of their first occurrence. *)
Definition first_seen (l : list Z) : list Z := fold_left add_key l [].

(** The invariant of the grouping loop after the hits [seen]: the keys
    are distinct, every entry stands for a passing hit of its user, and
    every passing hit is dominated by the entry of its user. *)
Definition group_inv (threshold : Q) (seen : list hit) (d : user_matches)
  : Prop :=
  NoDup (keys d)
  /\ (forall k c, In (k, c) d ->
        exists h, In h seen /\ passes threshold h = true
                  /\ user_id (fst h) = k /\ c = entry_of h)
  /\ (forall h, In h seen -> passes threshold h = true ->
        exists c, In (user_id (fst h), c) d
                  /\ round3 (1 - snd h) <= similarity c).

(** [unique_users = list(user_matches.values())] *)
Definition unique_users (threshold : Q) (hits : list hit) : list candidate :=
  values (group_by_user threshold hits).

End Grouping.

Import Grouping.

(** ** Variant generation, shared pieces *)

(** The diacritic folding of [_index_users]:
    [.replace('ç','c').replace('ğ','g').replace('ı','i').replace('ö','o')
     .replace('ş','s').replace('ü','u')] *)
Definition fold_diacritics (s : str) : str :=
  replace (u "ü") (u "u")
    (replace (u "ş") (u "s")
      (replace (u "ö") (u "o")
        (replace (u "ı") (u "i")
          (replace (u "ğ") (u "g")
            (replace (u "ç") (u "c") s))))).

(** [full_name.split()[-1] if len(full_name.split()) > 1 else full_name] *)
Definition last_name (full_name_ : str) : str :=
  if Nat.ltb 1 (List.length (split_ws full_name_))
  then last (split_ws full_name_) []
  else full_name_.

(** The loop [for variant in set(variants): if variant.strip(): ...].  The
    iteration order of a Python set is unspecified; the model keeps one
    copy of each string, and the theorems use membership only. *)
Definition index_entries (user_ : user) (variants : list str)
  : list (str * user) :=
  map (fun variant => (variant, user_))
      (filter (fun variant => truthy (strip variant))
              (nodup str_eq_dec variants)).

(** ** [VectorNameResolver] (main.py) *)

Module Interactive.

(** The list [variants] built for one row of the user table;
    [full_name.split()[0]] raises [IndexError] when the name has no
    token. *)
Definition variants `{External} (user_ : user) : result (list str) :=
  let full_name_ := lower (full_name user_) in
  let email_prefix := lower (split_first (u "@") (email_address user_)) in
  match split_ws full_name_ with
  | [] => Raise IndexError
  | first :: _ =>
    Ok [ full_name_;
         fold_diacritics full_name_;
         first;
         last_name full_name_;
         email_prefix;
         replace (u ".") (u " ") email_prefix ]
  end.

(** [_index_users]: the texts handed to the encoder, each with its
    metadata. *)
Fixpoint index_users `{External} (df_user : list user)
  : result (list (str * user)) :=
  match df_user with
  | [] => Ok []
  | user_ :: rest =>
    match variants user_ with
    | Raise e => Raise e
    | Ok vs =>
      match index_users rest with
      | Raise e => Raise e
      | Ok entries => Ok (index_entries user_ vs ++ entries)
      end
    end
  end.

Record resolved := mk_resolved {
  input_name : str;
  matched_user : user;
  match_type : str;
  similarity_score : Q
}.

Record partial_match := mk_partial {
  pm_input_name : str;
  candidates : list candidate
}.

Record results := mk_results {
  resolved_names : list resolved;
  partial_matches : list partial_match;
  ambiguous_names : list str;
  needs_clarification : bool
}.

Definition empty_results : results := mk_results [] [] [] false.

(** [unique_users.sort(key=lambda x: x['similarity'], reverse=True)]: the
    sort is stable, also with [reverse=True], so candidates of equal
    similarity keep their order. *)
Fixpoint insert_desc (x : candidate) (l : list candidate) : list candidate :=
  match l with
  | [] => [x]
  | y :: l' =>
    if gt (similarity y) (similarity x) then y :: insert_desc x l'
    else x :: l
  end.

Definition sort_desc (l : list candidate) : list candidate :=
  fold_right insert_desc [] l.

(** The sorted [unique_users] of one input name. *)
Definition sorted_users `{External} (threshold : Q) (name : str)
  : list candidate :=
  sort_desc (unique_users threshold (collection_query (lower name) 10)).

(** The body of the loop over [input_names]. *)
Definition search_step `{External} (threshold : Q) (r : results) (name : str)
  : results :=
  if negb (truthy (strip name)) then r
  else
    let users := sorted_users threshold name in
    if Nat.eqb (List.length users) 1 then
      match users with
      | user_ :: _ =>
        mk_results
          (resolved_names r ++
           [mk_resolved name
              (mk_user (id user_) (c_full_name user_) (c_email_address user_))
              (u "vector_auto") (similarity user_)])
          (partial_matches r) (ambiguous_names r) (needs_clarification r)
      | [] => r
      end
    else if Nat.ltb 1 (List.length users) then
      mk_results (resolved_names r)
        (partial_matches r ++ [mk_partial name (firstn 5 users)])
        (ambiguous_names r ++ [name]) true
    else
      mk_results (resolved_names r) (partial_matches r)
        (ambiguous_names r ++ [name]) true.

(** [search_names(input_names, threshold=0.7)] *)
Definition search_names `{External} (input_names : list str) (threshold : Q)
  : results :=
  fold_left (search_step threshold) input_names empty_results.

Definition default_threshold : Q := 7 # 10.

End Interactive.

(** ** [VectorDatabaseManager] (vector_database.py) *)

Module Package.

(** The list [variants] built for one row of the user table;
    [full_name.split()[0]] raises [IndexError] when the name has no
    token. *)
Definition variants `{External} (user_ : user) : result (list str) :=
  let full_name_ := lower (full_name user_) in
  let email_prefix := lower (split_first (u "@") (email_address user_)) in
  match split_ws full_name_ with
  | [] => Raise IndexError
  | first :: _ =>
    Ok [ full_name_;
         fold_diacritics full_name_;
         first;
         last_name full_name_;
         email_prefix;
         replace (u ".") (u " ") email_prefix;
         strip (replace (u ", phd") [] (replace (u ", ph.d") [] full_name_));
         replace (u "çelik") (u "celik")
           (replace (u "şahin") (u "sahin") full_name_) ]
  end.

(** [_index_users]: the texts handed to the encoder, each with its
    metadata. *)
Fixpoint index_users `{External} (df_user : list user)
  : result (list (str * user)) :=
  match df_user with
  | [] => Ok []
  | user_ :: rest =>
    match variants user_ with
    | Raise e => Raise e
    | Ok vs =>
      match index_users rest with
      | Raise e => Raise e
      | Ok entries => Ok (index_entries user_ vs ++ entries)
      end
    end
  end.

Record resolved := mk_resolved {
  input_name : str;
  matched_user : candidate;
  similarity_score : Q
}.

Record partial_match := mk_partial {
  pm_input_name : str;
  candidates : list candidate
}.

Record results := mk_results {
  resolved_names : list resolved;
  partial_matches : list partial_match;
  ambiguous_names : list str;
  needs_clarification : bool
}.

Definition empty_results : results := mk_results [] [] [] false.

(** The configuration value [vector_db_similarity_threshold].  Reading the
    configuration happens before the search and is not part of the model,
    which starts from a configuration that was read. *)
Record Config := mk_config {
  vector_db_similarity_threshold : Q
}.

(** The [unique_users] of one input name: no sort here. *)
Definition users_of `{External} (threshold : Q) (name : str)
  : list candidate :=
  unique_users threshold (collection_query (lower name) 10).

(** The body of the loop over [input_names]. *)
Definition search_step `{External} (threshold : Q) (r : results) (name : str)
  : results :=
  if negb (truthy (strip name)) then r
  else
    let users := users_of threshold name in
    if Nat.eqb (List.length users) 1 then
      match users with
      | user_ :: _ =>
        mk_results
          (resolved_names r ++ [mk_resolved name user_ (similarity user_)])
          (partial_matches r) (ambiguous_names r) (needs_clarification r)
      | [] => r
      end
    else if Nat.ltb 1 (List.length users) then
      mk_results (resolved_names r)
        (partial_matches r ++ [mk_partial name users])
        (ambiguous_names r ++ [name]) true
    else
      mk_results (resolved_names r) (partial_matches r)
        (ambiguous_names r ++ [name]) true.

(** [search_names(input_names, threshold=None)] *)
Definition search_names `{External} (config : Config)
  (input_names : list str) (threshold : option Q) : results :=
  let threshold_ :=
    match threshold with
    | None => vector_db_similarity_threshold config
    | Some t => t
    end in
  fold_left (search_step threshold_) input_names empty_results.

End Package.

(** ** [create_meeting_with_resolved_names] (main.py) *)

Module Clarification.

Import Interactive.

(** The decoded [meeting_info_json]; a field is [None] when the key is
    absent and [.get] falls back to its default. *)
Record meeting_info := mk_meeting_info {
  mi_subject : option str;
  mi_purpose : option str;
  mi_duration_minutes : option Z;
  mi_date_description : option str;
  mi_time_description : option str
}.

(** The final [meeting] dictionary. *)
Record meeting := mk_meeting {
  body : str;
  endTime : str;
  meeting_duration : Z;
  startTime : str;
  subject : str;
  user_details : list user
}.

Definition get_default {A : Type} (o : option A) (d : A) : A :=
  match o with Some a => a | None => d end.

(** [key in d] and [d[key]] on a decoded JSON object *)
Fixpoint json_get (key : str) (d : list (str * json)) : option json :=
  match d with
  | [] => None
  | (k, v) :: d' => if str_eqb key k then Some v else json_get key d'
  end.

(** The loop over [parsed_choice.items()] of the nested format. *)
Definition nested_names (d : list (str * json)) : list json :=
  flat_map
    (fun kv =>
       match snd kv with
       | JDict d' =>
         match json_get (u "name") d' with
         | Some v => [v]
         | None => []
         end
       | _ => []
       end) d.

(** The name read from a stripped, non-empty line: the text after the
    first [". "] and before the first [" ("]. *)
Definition name_part (line : str) : str :=
  if contains (u ". ") line then
    match split_rest (u ". ") line with
    | Some rest => strip (split_first (u " (") rest)
    | None => line
    end
  else if contains (u " (") line then strip (split_first (u " (") line)
  else line.

(** One line of the fallback parsing. *)
Definition parse_line (line : str) : list str :=
  let line := strip line in
  if truthy line then [name_part line] else [].

(** The fallback of the [except] branch:
    [clarification_choice.strip().split('\n')], line by line. *)
Definition fallback_choices (clarification_choice : str) : list str :=
  flat_map parse_line (split_char 10%N (strip clarification_choice)).

(** [clarification_choices] as the matching loop receives it. *)
Definition parse_choices `{External} (clarification_choice : str)
  : list json :=
  if negb (startswith (u "{") clarification_choice)
     && negb (startswith (u "[") clarification_choice)
  then [JStr (strip clarification_choice)]
  else
    match json_loads clarification_choice with
    | Some (JDict d) =>
      match json_get (u "name") d with
      | Some v => [v]
      | None =>
        match json_get (u "Şahin") d with
        | Some _ => nested_names d
        | None => []
        end
      end
    | Some (JList l) => l
    | Some _ => []
    | None => map JStr (fallback_choices clarification_choice)
    end.

(** The four containment tests of the flexible matching. *)
Definition matches `{External} (choice candidate_name : str) : bool :=
  let choice_lower := lower choice in
  let candidate_lower := lower candidate_name in
  contains choice_lower candidate_lower
  || contains candidate_lower choice_lower
  || contains (replace (u " ") [] choice_lower)
              (replace (u " ") [] candidate_lower)
  || contains (replace (u " ") [] candidate_lower)
              (replace (u " ") [] choice_lower).

(** The loop [for candidate in candidates] for one choice, up to its
    [break]; [choice.lower()] raises when the choice is not a string. *)
Fixpoint scan_candidates `{External} (choice : json)
  (candidates_ : list candidate) : result (option candidate) :=
  match candidates_ with
  | [] => Ok None
  | candidate_ :: rest =>
    match choice with
    | JStr s =>
      if matches s (c_full_name candidate_) then Ok (Some candidate_)
      else scan_candidates choice rest
    | _ => Raise AttributeError
    end
  end.

(** The accumulators [resolved_names] and [user_details]. *)
Definition acc := (list str * list user)%type.

Definition accept (a : acc) (c : candidate) : acc :=
  (fst a ++ [c_full_name c],
   snd a ++ [mk_user (id c) (c_full_name c) (c_email_address c)]).

(** The loop [for choice in clarification_choices] for one partial
    match. *)
Fixpoint scan_choices `{External} (choices : list json)
  (candidates_ : list candidate) (a : acc) : result acc :=
  match choices with
  | [] => Ok a
  | choice :: rest =>
    match scan_candidates choice candidates_ with
    | Raise e => Raise e
    | Ok None => scan_choices rest candidates_ a
    | Ok (Some c) => scan_choices rest candidates_ (accept a c)
    end
  end.

(** The loop [for partial_match in search_results.get('partial_matches')]. *)
Fixpoint scan_partial_matches `{External} (choices : list json)
  (pms : list partial_match) (a : acc) : result acc :=
  match pms with
  | [] => Ok a
  | pm :: rest =>
    match scan_choices choices (candidates pm) a with
    | Raise e => Raise e
    | Ok a' => scan_partial_matches choices rest a'
    end
  end.

(** The day offset and the hour read from the descriptions. *)
Definition days_ahead `{External} (date_desc : str) : Z :=
  if contains (u "yarın") (lower date_desc) then 1
  else if contains (u "bugün") (lower date_desc) then 0
  else if contains (u "2 hafta") (lower date_desc) then 14
  else 1.

Definition hour `{External} (time_desc : str) : Z :=
  if contains (u "sabah") (lower time_desc) then 9
  else if contains (u "öğle") (lower time_desc) then 12
  else if contains (u "akşam") (lower time_desc) then 17
  else 14.

Definition nl : str := [10%N].

(** The invitation text. *)
Definition email_body (attendees_str subject_ purpose : str) : str :=
  u "Sayın " ++ attendees_str ++ u "," ++ nl ++ nl
  ++ subject_ ++ u " konulu toplantı için " ++ purpose
  ++ u " amacıyla bir araya gelmek istiyoruz. " ++ nl ++ nl
  ++ u "Katılımınızı bekliyoruz." ++ nl ++ nl
  ++ u "Saygılarımla.".

(** The attendees already resolved by the search. *)
Definition resolved_details (search_results : results) : list user :=
  map matched_user (resolved_names search_results).

Definition resolved_full_names (search_results : results) : list str :=
  map (fun r => full_name (matched_user r)) (resolved_names search_results).

(** [create_meeting_with_resolved_names], on the decoded meeting info and
    search results.  [Raise] stands for the answer
    [{"error": "Meeting creation failed: ..."}] of the [except] branch. *)
Definition create_meeting_with_resolved_names `{External}
  (info : meeting_info) (search_results : results)
  (clarification_choice : str) : result meeting :=
  let subject_ := get_default (mi_subject info) (u "Toplantı") in
  let purpose := get_default (mi_purpose info) (u "toplantı düzenleme") in
  let duration := get_default (mi_duration_minutes info) 30%Z in
  let date_desc := get_default (mi_date_description info) (u "yarın") in
  let time_desc :=
    get_default (mi_time_description info) (u "öğleden sonra") in
  let a0 := (resolved_full_names search_results,
             resolved_details search_results) in
  let clarification_choices := parse_choices clarification_choice in
  match scan_partial_matches clarification_choices
          (partial_matches search_results) a0 with
  | Raise e => Raise e
  | Ok (names, details) =>
    match schedule (days_ahead date_desc) (hour time_desc) duration with
    | None => Raise DateTimeError
    | Some (start_time, end_time) =>
      Ok (mk_meeting (email_body (join (u ", ") names) subject_ purpose)
                     end_time duration start_time subject_ details)
    end
  end.

(** *** [handle_clarification] (main.py): the attendees of the instruction *)

(** The loop over the lines of the answer: a line of digits becomes a
    numbered placeholder, any other line gives its name part. *)
Fixpoint instruction_choices `{External} (lines : list str)
  : result (list str) :=
  match lines with
  | [] => Ok []
  | line :: rest =>
    let line := strip line in
    if truthy line then
      if str_isdigit line then
        match int_text line with
        | None => Raise ValueError
        | Some choice_num =>
          match instruction_choices rest with
          | Ok l => Ok ((u "Choice " ++ choice_num) :: l)
          | Raise e => Raise e
          end
        end
      else
        match instruction_choices rest with
        | Ok l => Ok (name_part line :: l)
        | Raise e => Raise e
        end
    else instruction_choices rest
  end.

(** [all_attendees = resolved_names + clarification_choices] *)
Definition all_attendees `{External} (original_search_results : results)
  (clarification : str) : result (list str) :=
  match instruction_choices (split_char 10%N (strip clarification)) with
  | Ok clarification_choices =>
    Ok (resolved_full_names original_search_results ++ clarification_choices)
  | Raise e => Raise e
  end.

(** *** Vocabulary of the properties *)

(** The answer is taken as plain text: it starts with neither a brace nor
    a bracket. *)
Definition plain (clarification_choice : str) : bool :=
  negb (startswith (u "{") clarification_choice)
  && negb (startswith (u "[") clarification_choice).

(** The first candidate, in candidate order, that passes one of the four
    containment tests for a choice. *)
Definition first_match `{External} (choice : str) (cs : list candidate)
  : option candidate :=
  find (fun c => matches choice (c_full_name c)) cs.

(** The candidates accepted for one partial match, choice by choice, and
    for all partial matches in turn. *)
Definition accepted_for `{External} (choices : list str)
  (cs : list candidate) : list candidate :=
  flat_map (fun s => match first_match s cs with
                     | Some c => [c]
                     | None => []
                     end) choices.

Definition accepted `{External} (choices : list str)
  (pms : list partial_match) : list candidate :=
  flat_map (fun pm => accepted_for choices (candidates pm)) pms.

(** The choice is a string. *)
Definition is_str (j : json) : bool :=
  match j with JStr _ => true | _ => false end.

(** The output is a meeting that holds every resolved attendee. *)
Definition keeps_resolved (search_results : results) (out : result meeting)
  : Prop :=
  exists m,
    out = Ok m
    /\ forall r, In r (resolved_names search_results) ->
         In (matched_user r) (user_details m).

(** The same candidate with another similarity. *)
Definition with_similarity (q : Q) (c : candidate) : candidate :=
  mk_candidate (id c) (c_full_name c) (c_email_address c) q.

(** The scheduling of a meeting info succeeds. *)
Definition schedulable `{External} (info : meeting_info) : Prop :=
  schedule
    (days_ahead (get_default (mi_date_description info) (u "yarın")))
    (hour (get_default (mi_time_description info) (u "öğleden sonra")))
    (get_default (mi_duration_minutes info) 30%Z) <> None.

(** *** The policy of the specification, for comparison

    The parsing and matching policy as the specification words it: every
    non-empty line loses a leading ordinal and a trailing parenthesised
    e-mail; a label matches a candidate by containment of the lower-cased
    texts in either direction; a second pass, on the texts without
    whitespace, runs only when the first pass finds nothing; the first
    matching candidate of a pending name is accepted. *)

Definition isdigit (c : char) : bool := ((48 <=? c) && (c <=? 57))%N.

Fixpoint drop_digits (s : str) : str :=
  match s with
  | [] => []
  | c :: s' => if isdigit c then drop_digits s' else s
  end.

(** Without a leading ["N. "]. *)
Definition spec_strip_ordinal (line : str) : str :=
  match line with
  | c :: _ =>
    if isdigit c && startswith (u ". ") (drop_digits line)
    then skipn 2 (drop_digits line)
    else line
  | [] => []
  end.

(** Without a trailing ["(email)"]. *)
Definition spec_strip_email (line : str) : str :=
  match rev line with
  | c :: _ =>
    if char_eqb c 41%N then
      match partition_at (u "(") (rev line) with
      | Some (_, a) => rev a
      | None => line
      end
    else line
  | [] => []
  end.

Definition spec_labels (answer : str) : list str :=
  flat_map
    (fun line =>
       let line := strip line in
       if truthy line
       then [strip (spec_strip_email (spec_strip_ordinal line))]
       else [])
    (split_char 10%N answer).

Definition spec_pass1 `{External} (label candidate_name : str) : bool :=
  contains (lower label) (lower candidate_name)
  || contains (lower candidate_name) (lower label).

Definition remove_whitespace (s : str) : str :=
  filter (fun c => negb (isspace c)) s.

Definition spec_pass2 `{External} (label candidate_name : str) : bool :=
  contains (remove_whitespace (lower label))
           (remove_whitespace (lower candidate_name))
  || contains (remove_whitespace (lower candidate_name))
              (remove_whitespace (lower label)).

(** The first candidate of [cs] that some label matches under [test]. *)
Definition spec_first_match (test : str -> str -> bool)
  (labels : list str) (cs : list candidate) : option candidate :=
  find (fun c => existsb (fun l => test l (c_full_name c)) labels) cs.

Definition spec_accept_for `{External} (labels : list str)
  (cs : list candidate) : option candidate :=
  match spec_first_match spec_pass1 labels cs with
  | Some c => Some c
  | None => spec_first_match spec_pass2 labels cs
  end.

End Clarification.

(** ** Vocabulary of the properties *)

(** [name.strip()] is not empty. *)
Definition nonblank (name : str) : bool := truthy (strip name).

(** The raw hits of one input name. *)
Definition hits_of `{External} (name : str) : list hit :=
  collection_query (lower name) 10.

(** The number of per-person groups that cleared the threshold. *)
Definition n_groups `{External} (threshold : Q) (name : str) : nat :=
  List.length (group_by_user threshold (hits_of name)).

(** The three outcomes of the specification. *)
Inductive outcome_kind := Resolved | Ambiguous | Unmatched.

Definition kind_of_count (n : nat) : outcome_kind :=
  match n with
  | O => Unmatched
  | S O => Resolved
  | S (S _) => Ambiguous
  end.

Definition kind_of `{External} (threshold : Q) (name : str) : outcome_kind :=
  kind_of_count (n_groups threshold name).

Definition is_resolved (k : outcome_kind) : bool :=
  match k with Resolved => true | _ => false end.

Definition is_ambiguous (k : outcome_kind) : bool :=
  match k with Ambiguous => true | _ => false end.


(** Candidates by descending similarity. *)
Definition desc (a b : candidate) : Prop := similarity b <= similarity a.


(** The user a candidate stands for. *)
Definition user_of (c : candidate) : user :=
  mk_user (id c) (c_full_name c) (c_email_address c).

(** The candidate lists the two resolvers build for one input name: the
    unsorted groups of the package, the sorted groups of main.py, and the
    five candidates main.py shows. *)
Definition aggregated `{External} (threshold : Q) (name : str)
  (cs : list candidate) : Prop :=
  cs = Package.users_of threshold name
  \/ cs = Interactive.sorted_users threshold name
  \/ cs = firstn 5 (Interactive.sorted_users threshold name).

(** [c] stands for a hit of its user and no hit of that user has a
    greater rounded similarity. *)
Definition carries_rounded_max (hits : list hit) (c : candidate) : Prop :=
  (exists h, In h hits /\ c = entry_of h)
  /\ forall h, In h hits -> user_id (fst h) = id c ->
       round3 (1 - snd h) <= similarity c.

(** The same with the similarity [1 - distance] as it is before
    rounding. *)
Definition carries_raw_max (hits : list hit) (c : candidate) : Prop :=
  (exists h, In h hits /\ user_id (fst h) = id c
             /\ similarity c == 1 - snd h)
  /\ forall h, In h hits -> user_id (fst h) = id c ->
       1 - snd h <= similarity c.



Definition is_pending (k : outcome_kind) : bool := negb (is_resolved k).

(** The non-blank input names of one kind, in input order. *)
Definition names_of `{External} (threshold : Q) (pick : outcome_kind -> bool)
  (names : list str) : list str :=
  filter (fun n => nonblank n && pick (kind_of threshold n)) names.

(** What main.py attaches to a partial match: the first five of the
    sorted groups of a name with two groups or more. *)
Definition top_five `{External} (threshold : Q)
  (pm : Interactive.partial_match) : Prop :=
  Interactive.candidates pm
  = firstn 5 (Interactive.sorted_users threshold (Interactive.pm_input_name pm))
  /\ (2 <= n_groups threshold (Interactive.pm_input_name pm))%nat.



(** The name of a row holds at least one token. *)
Definition named `{External} (user_ : user) : Prop :=
  split_ws (lower (full_name user_)) <> [].

(** The fixed character mapping of the diacritic folding. *)
Definition fold_char (c : char) : char :=
  (if c =? 231 then 99            (* ç to c *)
   else if c =? 287 then 103      (* ğ to g *)
   else if c =? 305 then 105      (* ı to i *)
   else if c =? 246 then 111      (* ö to o *)
   else if c =? 351 then 115      (* ş to s *)
   else if c =? 252 then 117      (* ü to u *)
   else c)%N.

(** The indexed texts of one row. *)
Definition texts_of (user_ : user) (variants : list str) : list str :=
  map fst (index_entries user_ variants).

(** ** Sample data *)

Module Sample.

Definition ahmet_yilmaz : user :=
  mk_user 1 (u "Ahmet Yılmaz") (u "ahmet.yilmaz@company.com").
Definition ahmet_kaya : user :=
  mk_user 2 (u "Ahmet Kaya") (u "ahmet.kaya@company.com").
Definition ahmet_ozkan : user :=
  mk_user 3 (u "Ahmet Özkan") (u "a.ozkan@company.com").
Definition sahin_nicat : user :=
  mk_user 9 (u "Şahin Nicat, Ph.D") (u "snicat@company.com").
Definition arda_orcun : user :=
  mk_user 10 (u "Arda Orçun") (u "arda.orcun@company.com").

Definition ali (n : Z) (last_ : string) : user :=
  mk_user n (u "Ali " ++ u last_) (u "ali" ++ u "@company.com").

(** A vector store that answers four queries. *)
Definition sample_query (text : str) (n_results : nat) : list hit :=
  firstn n_results
    (if str_eqb text (u "ahmet") then
       [ (ahmet_kaya, 1 # 10); (ahmet_yilmaz, 1 # 10);
         (ahmet_ozkan, 2 # 10); (ahmet_kaya, 25 # 100) ]
     else if str_eqb text (u "arda orçun") then
       [ (arda_orcun, 0); (arda_orcun, 2996 # 10000) ]
     else if str_eqb text (u "nicat") then
       [ (sahin_nicat, 2996 # 10000) ]
     else if str_eqb text (u "ali") then
       [ (ali 4 "Şahin", 10 # 100); (ali 5 "Demir", 11 # 100);
         (ali 6 "Can", 12 # 100); (ali 22 "Kurt", 13 # 100);
         (ali 23 "Polat", 14 # 100); (ali 24 "Aksoy", 15 # 100);
         (ali 25 "Tekin", 16 # 100) ]
     else []).

(** [json.loads] on the one JSON text of the examples. *)
Definition sample_json_loads (s : str) : option json :=
  if str_eqb s (u "[1]") then Some (JList [JNum 1]) else None.

Definition sample_schedule (days hour_ minutes : Z) : option (str * str) :=
  Some (u "2025-01-02T14:00:00+03:00", u "2025-01-02T14:30:00+03:00").

(** [str.isdigit] and [int] on the decimal digits 0 to 9. *)
Definition sample_isdigit (s : str) : bool :=
  truthy s && forallb Clarification.isdigit s.

Fixpoint drop_zeros (s : str) : str :=
  match s with
  | c :: s' => if N.eqb c 48 then drop_zeros s' else s
  | [] => []
  end.

Definition sample_int_text (s : str) : option str :=
  Some (match drop_zeros s with [] => u "0" | r => r end).

Definition env : External :=
  {| lower := lower_tr;
     collection_query := sample_query;
     json_loads := sample_json_loads;
     schedule := sample_schedule;
     str_isdigit := sample_isdigit;
     int_text := sample_int_text |}.

Definition config : Package.Config := Package.mk_config (7 # 10).


(** The groups of the query for Ahmet at threshold 0.7, in the order in
    which both resolvers return them. *)
Definition ahmet_candidates : list candidate :=
  [ mk_candidate 2 (u "Ahmet Kaya") (u "ahmet.kaya@company.com") (900 # 1000);
    mk_candidate 1 (u "Ahmet Yılmaz") (u "ahmet.yilmaz@company.com")
                 (900 # 1000);
    mk_candidate 3 (u "Ahmet Özkan") (u "a.ozkan@company.com") (800 # 1000) ].

(** The one group of the query for Nicat: the distance 0.2996 gives the
    similarity 0.7004, stored as 0.7. *)
Definition nicat_candidate : candidate :=
  mk_candidate 9 (u "Şahin Nicat, Ph.D") (u "snicat@company.com") (700 # 1000).

(** The search results of a request for Arda Orçun, Ahmet and Zzzqqq: one
    name resolved, one with three candidates, one without any. *)
Definition session : Interactive.results :=
  Interactive.mk_results
    [Interactive.mk_resolved (u "Arda Orçun") arda_orcun (u "vector_auto")
                             (1000 # 1000)]
    [Interactive.mk_partial (u "Ahmet") ahmet_candidates]
    [u "Ahmet"; u "Zzzqqq"] true.

Definition info : Clarification.meeting_info :=
  Clarification.mk_meeting_info None None None None None.

Definition kaya : candidate :=
  mk_candidate 2 (u "Ahmet Kaya") (u "ahmet.kaya@company.com") (900 # 1000).

(** Two candidates of which the first matches a choice only without its
    spaces and the second matches it as written. *)
Definition alican_candidates : list candidate :=
  [ mk_candidate 6 (u "Ali Can Yılmaz") (u "alican.yilmaz@company.com")
                 (800 # 1000);
    mk_candidate 26 (u "Alican Demir") (u "alican.demir@company.com")
                 (750 # 1000) ].

End Sample.

(** ** The other tools of main.py *)

Module Tools.

Import Interactive Clarification.

(** [str(i)] for a natural number: its decimal digits. *)
Fixpoint uint_codes (d : Decimal.uint) : str :=
  match d with
  | Decimal.Nil => []
  | Decimal.D0 d' => 48%N :: uint_codes d'
  | Decimal.D1 d' => 49%N :: uint_codes d'
  | Decimal.D2 d' => 50%N :: uint_codes d'
  | Decimal.D3 d' => 51%N :: uint_codes d'
  | Decimal.D4 d' => 52%N :: uint_codes d'
  | Decimal.D5 d' => 53%N :: uint_codes d'
  | Decimal.D6 d' => 54%N :: uint_codes d'
  | Decimal.D7 d' => 55%N :: uint_codes d'
  | Decimal.D8 d' => 56%N :: uint_codes d'
  | Decimal.D9 d' => 57%N :: uint_codes d'
  end.

Definition str_of_nat (n : nat) : str := uint_codes (Nat.to_uint n).

(** The names the [search_names] tool hands to the resolver:
    [[n.strip() for n in attendee_names.split(',') if n.strip()]]. *)
Definition tool_names (attendee_names : str) : list str :=
  flat_map (fun n => if truthy (strip n) then [strip n] else [])
           (split_char 44%N attendee_names).

(** The [search_names] tool, before its result is serialised; the
    resolver runs with its default threshold. *)
Definition search_names_tool `{External} (attendee_names : str) : results :=
  search_names (tool_names attendee_names) default_threshold.

(** The answer of [check_clarification]. *)
Inductive clarification_response :=
| NeedsClarification (clarification_needed : str) (search_results : results)
| Proceed (message : str).

(** One numbered line of the prompt, with its line feed. *)
Definition candidate_line (i : nat) (c : candidate) : str :=
  u "  " ++ str_of_nat i ++ u ". " ++ c_full_name c
  ++ u " (" ++ c_email_address c ++ u ")" ++ nl.

(** [for i, candidate in enumerate(match['candidates'], 1)] *)
Fixpoint candidate_lines (i : nat) (cs : list candidate) : str :=
  match cs with
  | [] => []
  | c :: rest => candidate_line i c ++ candidate_lines (S i) rest
  end.

(** The block of one partial match. *)
Definition match_block (pm : partial_match) : str :=
  u "'" ++ pm_input_name pm ++ u "' için seçenekler:" ++ nl
  ++ candidate_lines 1 (candidates pm) ++ nl.

(** The prompt before [text.strip()]. *)
Definition prompt_text (search_results : results) : str :=
  u "Lütfen seçim yapın:" ++ nl ++ nl
  ++ flat_map match_block (partial_matches search_results).

(** [check_clarification], on the decoded search results. *)
Definition check_clarification (search_results : results)
  : clarification_response :=
  if needs_clarification search_results then
    NeedsClarification (strip (prompt_text search_results)) search_results
  else
    Proceed
      (u "✅ Tüm isimler çözümlendi ("
       ++ str_of_nat (List.length (resolved_names search_results))
       ++ u " katılımcı). Şimdi toplantıyı oluştur: parse_datetime, generate_email, create_meeting_json sırasıyla çalıştır.").

(** [create_meeting_json], on the decoded search results. *)
Definition create_meeting_json (subject_ start_time end_time : str)
  (duration : Z) (email_body_ : str) (search_results : results) : meeting :=
  mk_meeting email_body_ end_time duration start_time subject_
             (resolved_details search_results).

(** The day offset and the hour of the [parse_datetime] tool.  [py_int]
    stands for [int] on a string, [None] when it raises. *)
Definition parse_days_ahead `{External} (date_desc : str) : Z :=
  if contains (u "yarın") (lower date_desc) then 1
  else if contains (u "bugün") (lower date_desc) then 0
  else if contains (u "hafta") (lower date_desc) then
    if contains (u "2 hafta") (lower date_desc) then 14 else 7
  else if contains (u "pazartesi") (lower date_desc) then 1
  else if contains (u "salı") (lower date_desc) then 2
  else 1.

Definition parse_hour `{External} (py_int : str -> option Z)
  (time_desc : str) : Z :=
  if contains (u "sabah") (lower time_desc) then 9
  else if contains (u "öğle") (lower time_desc) then 12
  else if contains (u "akşam") (lower time_desc) then 17
  else if contains (u ":") time_desc then
    match py_int (split_first (u ":") time_desc) with
    | Some h => h
    | None => 14
    end
  else 14.

(** [parse_datetime]: the ISO texts of start and end, [None] when the
    [datetime] arithmetic raises. *)
Definition parse_datetime `{External} (py_int : str -> option Z)
  (date_desc time_desc : str) (duration : Z) : option (str * str) :=
  schedule (parse_days_ahead date_desc) (parse_hour py_int time_desc) duration.

(** [generate_email] *)
Definition generate_email (subject_ purpose attendees : str) : str :=
  let purpose := if truthy purpose then purpose
                 else u "toplantı düzenleme" in
  let subject_ := if truthy subject_ then subject_ else u "Toplantı" in
  email_body attendees subject_ purpose.

(** The day offset and the hour as [complete_meeting_creation] reads
    them. *)
Definition complete_days_ahead `{External} (date_desc : str) : Z :=
  if contains (u "yarın") (lower date_desc) then 1
  else if contains (u "2 hafta") (lower date_desc) then 14
  else 1.

Definition complete_hour `{External} (time_desc : str) : Z :=
  if contains (u "sabah") (lower time_desc) then 9
  else if contains (u "öğle") (lower time_desc) then 12
  else 14.

(** [complete_meeting_creation], on the decoded meeting info and search
    results. *)
Definition complete_meeting_creation `{External} (info : meeting_info)
  (search_results : results) : result meeting :=
  let subject_ := get_default (mi_subject info) (u "Toplantı") in
  let purpose := get_default (mi_purpose info) (u "toplantı düzenleme") in
  let duration := get_default (mi_duration_minutes info) 30%Z in
  let date_desc := get_default (mi_date_description info) (u "yarın") in
  let time_desc :=
    get_default (mi_time_description info) (u "öğleden sonra") in
  let attendees_str := join (u ", ") (resolved_full_names search_results) in
  match schedule (complete_days_ahead date_desc) (complete_hour time_desc)
                 duration with
  | None => Raise DateTimeError
  | Some (start_time, end_time) =>
    Ok (mk_meeting (email_body attendees_str subject_ purpose)
                   end_time duration start_time subject_
                   (resolved_details search_results))
  end.

End Tools.

(** ** The configuration (config.py) *)

Module Configuration.

(** The fields of [Config] the model reads; [None] is an environment
    variable that is not set. *)
Record Config := mk_Config {
  azure_endpoint : option str;
  azure_api_key : option str;
  azure_deployment_name : option str;
  azure_api_version : option str;
  similarity_threshold : Q
}.

(** [field is not None and field.strip() != ''] *)
Definition field_ok (field : option str) : bool :=
  match field with
  | Some s => truthy (strip s)
  | None => false
  end.

(** [Config.validate] *)
Definition validate (c : Config) : bool :=
  forallb field_ok
    [ azure_endpoint c; azure_api_key c; azure_deployment_name c;
      azure_api_version c ].

(** [os.getenv(key)] answers [None] for a variable that is not set, and
    [os.getenv(key, default)] the default. *)
Definition environ := str -> option str.

Definition getenv_default (env : environ) (key default : str) : str :=
  Clarification.get_default (env key) default.

(** [Config()], that is [Config.__init__], up to the fields the model
    keeps.  [py_int] and [py_float] stand for the builtins [int] and
    [float] on a string, [None] when they raise [ValueError]: the
    constructor then raises and no object is built.  A text such as inf,
    for which [float] has no rational value, is outside the model. *)
Definition init (py_int : str -> option Z) (py_float : str -> option Q)
  (env : environ) : result Config :=
  match py_int (getenv_default env (u "DEFAULT_MEETING_DURATION") (u "30"))
  with
  | None => Raise ValueError
  | Some _ =>
    match py_float (getenv_default env (u "VECTOR_DB_SIMILARITY_THRESHOLD")
                                  (u "0.7")) with
    | None => Raise ValueError
    | Some threshold =>
      Ok (mk_Config
            (env (u "AZURE_OPENAI_ENDPOINT"))
            (env (u "AZURE_OPENAI_API_KEY"))
            (Some (getenv_default env (u "AZURE_OPENAI_DEPLOYMENT_NAME")
                                  (u "gpt-4o")))
            (Some (getenv_default env (u "AZURE_OPENAI_API_VERSION")
                                  (u "2024-12-01-preview")))
            threshold)
    end
  end.

(** [get_config]: the state is the global [_config]; [env] is the
    environment at the time of the call.  When [Config()] raises, the
    global stays [None]; when it returns, the global is assigned before
    the validation. *)
Definition get_config (py_int : str -> option Z) (py_float : str -> option Q)
  (state : option Config) (env : environ)
  : result Config * option Config :=
  match state with
  | None =>
    match init py_int py_float env with
    | Raise e => (Raise e, None)
    | Ok c =>
      if negb (validate c) then (Raise ValueError, Some c)
      else (Ok c, Some c)
    end
  | Some c => (Ok c, Some c)
  end.

(** [VectorDatabaseManager.search_names] with its call of [get_config]. *)
Definition manager_search_names `{External} (py_int : str -> option Z)
  (py_float : str -> option Q) (state : option Config) (env : environ)
  (input_names : list str) (threshold : option Q)
  : result Package.results * option Config :=
  match get_config py_int py_float state env with
  | (Raise e, state') => (Raise e, state')
  | (Ok config, state') =>
    (Ok (Package.search_names
           (Package.mk_config (similarity_threshold config))
           input_names threshold),
     state')
  end.

End Configuration.

(** ** Vocabulary of the further properties *)

(** Two results of main.py's search, bucket by bucket. *)
Definition results_app (a b : Interactive.results) : Interactive.results :=
  Interactive.mk_results
    (Interactive.resolved_names a ++ Interactive.resolved_names b)
    (Interactive.partial_matches a ++ Interactive.partial_matches b)
    (Interactive.ambiguous_names a ++ Interactive.ambiguous_names b)
    (Interactive.needs_clarification a || Interactive.needs_clarification b).

Definition package_results_app (a b : Package.results) : Package.results :=
  Package.mk_results
    (Package.resolved_names a ++ Package.resolved_names b)
    (Package.partial_matches a ++ Package.partial_matches b)
    (Package.ambiguous_names a ++ Package.ambiguous_names b)
    (Package.needs_clarification a || Package.needs_clarification b).

(** What main.py makes of a resolved entry and of a partial match of the
    package. *)
Definition interactive_resolved (r : Package.resolved) : Interactive.resolved :=
  Interactive.mk_resolved (Package.input_name r)
    (user_of (Package.matched_user r)) (u "vector_auto")
    (Package.similarity_score r).

Definition interactive_partial (pm : Package.partial_match)
  : Interactive.partial_match :=
  Interactive.mk_partial (Package.pm_input_name pm)
    (firstn 5 (Interactive.sort_desc (Package.candidates pm))).

(** The package's results as main.py would report them. *)
Definition as_interactive (r : Package.results) : Interactive.results :=
  Interactive.mk_results
    (map interactive_resolved (Package.resolved_names r))
    (map interactive_partial (Package.partial_matches r))
    (Package.ambiguous_names r) (Package.needs_clarification r).

(** The list is not empty. *)
Definition nonempty (A : Type) (l : list A) : bool :=
  match l with [] => false | _ :: _ => true end.

(** A decimal digit. *)
Definition digit (c : char) : Prop := (48 <= c <= 57)%N.

(** A line of the prompt as the user copies it, without its line feed. *)
Definition prompt_line (i : nat) (c : candidate) : str :=
  u "  " ++ Tools.str_of_nat i ++ u ". " ++ c_full_name c
  ++ u " (" ++ c_email_address c ++ u ")".

(** Successive calls of [get_config], one for each state of the
    environment at the time of the call, with the global [_config]
    threaded through. *)
Fixpoint get_config_calls (py_int : str -> option Z)
  (py_float : str -> option Q) (state : option Configuration.Config)
  (envs : list Configuration.environ) : list (result Configuration.Config) :=
  match envs with
  | [] => []
  | env :: rest =>
    let (r, state') := Configuration.get_config py_int py_float state env in
    r :: get_config_calls py_int py_float state' rest
  end.

(** The string holds a character that is no white space. *)
Definition has_text (s : str) : bool :=
  existsb (fun c => negb (isspace c)) s.

(** The fields [validate] reads. *)
Definition required_fields (c : Configuration.Config) : list (option str) :=
  [ Configuration.azure_endpoint c; Configuration.azure_api_key c;
    Configuration.azure_deployment_name c;
    Configuration.azure_api_version c ].

(** An environment given by the variables that are set. *)
Fixpoint environ_of (vars : list (str * str)) : Configuration.environ :=
  fun key =>
    match vars with
    | [] => None
    | (k, v) :: rest => if str_eqb key k then Some v else environ_of rest key
    end.

(** Stand-ins for [int] and [float] that agree with them on the texts of
    the examples. *)
Definition digits_int (s : str) : option Z :=
  if truthy s && forallb Clarification.isdigit s then
    Some (fold_left (fun n c => 10 * n + (Z.of_N c - 48))%Z s 0%Z)
  else None.

Definition two_floats (s : str) : option Q :=
  if str_eqb s (u "0.7") then Some (7 # 10)
  else if str_eqb s (u "0.85") then Some (85 # 100)
  else None.

(** An environment with an endpoint and an API key of blanks only; the
    same once the key is set; and one whose meeting duration is no
    number. *)
Definition blank_key_env : Configuration.environ :=
  environ_of [ (u "AZURE_OPENAI_ENDPOINT", u "https://example.openai.azure.com/");
               (u "AZURE_OPENAI_API_KEY", u "   ") ].

Definition keyed_env : Configuration.environ :=
  environ_of [ (u "AZURE_OPENAI_ENDPOINT", u "https://example.openai.azure.com/");
               (u "AZURE_OPENAI_API_KEY", u "key") ].

Definition bad_duration_env : Configuration.environ :=
  environ_of [ (u "AZURE_OPENAI_ENDPOINT", u "https://example.openai.azure.com/");
               (u "AZURE_OPENAI_API_KEY", u "key");
               (u "DEFAULT_MEETING_DURATION", u "half an hour") ].

(** The configurations built from the first two. *)
Definition blank_key_config : Configuration.Config :=
  Configuration.mk_Config (Some (u "https://example.openai.azure.com/"))
    (Some (u "   ")) (Some (u "gpt-4o")) (Some (u "2024-12-01-preview"))
    (7 # 10).

Definition keyed_config : Configuration.Config :=
  Configuration.mk_Config (Some (u "https://example.openai.azure.com/"))
    (Some (u "key")) (Some (u "gpt-4o")) (Some (u "2024-12-01-preview"))
    (7 # 10).


(** A second vector store for the examples: it answers as the first one
    except for the query for Nicat, whose hit lies at a greater
    distance. *)
Definition main_query (text : str) (n_results : nat) : list hit :=
  if str_eqb text (u "nicat") then
    firstn n_results [ (Sample.sahin_nicat, 35 # 100) ]
  else Sample.sample_query text n_results.

Definition main_env : External :=
  {| lower := lower_tr;
     collection_query := main_query;
     json_loads := Sample.sample_json_loads;
     schedule := Sample.sample_schedule;
     str_isdigit := Sample.sample_isdigit;
     int_text := Sample.sample_int_text |}.

(** * Properties *)

(** ** Rounding and comparison of floats *)

Section FloatFacts.

Lemma ge_iff (a b : Q) : ge a b = true <-> b <= a.
Proof. unfold ge. apply Qle_bool_iff. Qed.

Lemma gt_iff (a b : Q) : gt a b = true <-> b < a.
Proof.
  unfold gt. rewrite negb_true_iff. split; intro Hx.
  - apply Qnot_le_lt. intro Hle. apply Qle_bool_iff in Hle. congruence.
  - destruct (Qle_bool a b) eqn:E; [|reflexivity].
    apply Qle_bool_iff in E. exfalso. apply (Qlt_not_le _ _ Hx E).
Qed.

Lemma gt_false_iff (a b : Q) : gt a b = false <-> a <= b.
Proof.
  unfold gt. rewrite negb_false_iff. apply Qle_bool_iff.
Qed.

Lemma round_half_even_comp (x y : Q) :
  x == y -> round_half_even x = round_half_even y.
Proof.
  intro E. unfold round_half_even.
  rewrite (Qfloor_comp _ _ E).
  assert (Hc : (x - inject_Z (Qfloor y) ?= 1 # 2)
               = (y - inject_Z (Qfloor y) ?= 1 # 2)).
  { apply Qcompare_comp; [rewrite E|]; reflexivity. }
  rewrite Hc. reflexivity.
Qed.

Lemma round_half_even_range (x : Q) :
  (Qfloor x <= round_half_even x <= Qfloor x + 1)%Z.
Proof.
  unfold round_half_even.
  destruct (x - inject_Z (Qfloor x) ?= 1 # 2); [destruct (Z.even _)| |]; lia.
Qed.

Lemma round_half_even_mono (x y : Q) :
  x <= y -> (round_half_even x <= round_half_even y)%Z.
Proof.
  intro Hxy.
  pose proof (Qfloor_resp_le _ _ Hxy) as Hf.
  destruct (Z.eq_dec (Qfloor x) (Qfloor y)) as [E|NE].
  - unfold round_half_even. rewrite E.
    destruct (Qcompare_spec (x - inject_Z (Qfloor y)) (1 # 2)) as [H1|H1|H1];
      destruct (Qcompare_spec (y - inject_Z (Qfloor y)) (1 # 2)) as [H2|H2|H2];
      try lia; try (destruct (Z.even (Qfloor y)); lia);
      exfalso; lra.
  - pose proof (round_half_even_range x). pose proof (round_half_even_range y).
    lia.
Qed.

Lemma round_half_even_inject (k : Z) : round_half_even (inject_Z k) = k.
Proof.
  unfold round_half_even. rewrite Qfloor_Z.
  destruct (Qcompare_spec (inject_Z k - inject_Z k) (1 # 2)) as [H|H|H];
    try reflexivity; exfalso; lra.
Qed.

Lemma Qmake_1000_le (a b : Z) : (a <= b)%Z -> a # 1000 <= b # 1000.
Proof. intro H. unfold Qle. simpl. lia. Qed.

Lemma round3_mono (x y : Q) : x <= y -> round3 x <= round3 y.
Proof.
  intro H. unfold round3. apply Qmake_1000_le, round_half_even_mono. lra.
Qed.

Lemma round3_idem (x : Q) : round3 (round3 x) = round3 x.
Proof.
  unfold round3. set (k := round_half_even (x * 1000)).
  assert (E : round_half_even ((k # 1000) * 1000) = k).
  { rewrite <- (round_half_even_inject k) at 2.
    apply round_half_even_comp. unfold Qeq. simpl. lia. }
  rewrite E. reflexivity.
Qed.

End FloatFacts.

(** ** The dictionary [user_matches] *)

Section DictFacts.

Lemma dict_get_none (k : Z) (d : user_matches) :
  dict_get k d = None <-> ~ In k (keys d).
Proof.
  induction d as [|[k' c'] d IH]; simpl.
  - tauto.
  - destruct (Z.eqb_spec k k') as [E|NE].
    + split; [discriminate|]. intro Hn. exfalso. apply Hn. left. congruence.
    + rewrite IH. split.
      * intros Hn [E|Hin]; [congruence|tauto].
      * tauto.
Qed.

Lemma dict_get_some (k : Z) (d : user_matches) (c : candidate) :
  dict_get k d = Some c -> In (k, c) d.
Proof.
  induction d as [|[k' c'] d IH]; simpl; [discriminate|].
  destruct (Z.eqb_spec k k') as [E|NE].
  - intro H. inversion H. subst. now left.
  - intro H. right. auto.
Qed.

Lemma dict_set_in (k : Z) (c : candidate) (d : user_matches) x :
  In x (dict_set k c d) -> x = (k, c) \/ In x d.
Proof.
  induction d as [|[k' c'] d IH]; simpl.
  - intros [E|[]]. now left.
  - destruct (Z.eqb_spec k k') as [E|NE]; simpl.
    + intros [E'|Hin]; [now left|right; now right].
    + intros [E'|Hin]; [right; now left|].
      destruct (IH Hin) as [E'|Hin']; [now left|right; now right].
Qed.

Lemma dict_set_new (k : Z) (c : candidate) (d : user_matches) :
  In (k, c) (dict_set k c d).
Proof.
  induction d as [|[k' c'] d IH]; simpl; [now left|].
  destruct (Z.eqb_spec k k'); simpl; [now left|now right].
Qed.

Lemma dict_set_other (k : Z) (c : candidate) (d : user_matches) k' c' :
  In (k', c') d -> k' <> k -> In (k', c') (dict_set k c d).
Proof.
  induction d as [|[k0 c0] d IH]; simpl; [tauto|].
  intros [E|Hin] Hne.
  - inversion E. subst.
    destruct (Z.eqb_spec k k'); [congruence|now left].
  - destruct (Z.eqb_spec k k0); simpl; [now right|right; auto].
Qed.

Lemma keys_dict_set (k : Z) (c : candidate) (d : user_matches) :
  keys (dict_set k c d) = add_key (keys d) k.
Proof.
  unfold add_key.
  induction d as [|[k' c'] d IH]; simpl; [reflexivity|].
  destruct (Z.eqb_spec k k') as [E|NE]; simpl.
  - now subst.
  - rewrite IH. unfold keys. destruct (existsb (Z.eqb k) (map fst d)); reflexivity.
Qed.

Lemma mem_key_iff (k : Z) (l : list Z) :
  existsb (Z.eqb k) l = true <-> In k l.
Proof.
  rewrite existsb_exists. split.
  - intros [x [Hin E]]. apply Z.eqb_eq in E. now subst.
  - intro Hin. exists k. split; [assumption|apply Z.eqb_refl].
Qed.

Lemma add_key_NoDup (l : list Z) (k : Z) : NoDup l -> NoDup (add_key l k).
Proof.
  intro Hnd. unfold add_key.
  destruct (existsb (Z.eqb k) l) eqn:E; [assumption|].
  apply NoDup_app; [assumption| |].
  - repeat constructor. simpl; tauto.
  - intros x Hx Hin. destruct Hin as [<- |[]].
    apply mem_key_iff in Hx. congruence.
Qed.

Lemma add_key_In (l : list Z) (k x : Z) :
  In x (add_key l k) <-> In x l \/ x = k.
Proof.
  unfold add_key. destruct (existsb (Z.eqb k) l) eqn:E.
  - apply mem_key_iff in E. split; [tauto|]. intros [H| ->]; assumption.
  - rewrite in_app_iff. simpl. split; intros [H|H]; auto.
    destruct H as [-> |[]]. now right.
Qed.

Lemma dict_unique (d : user_matches) (k : Z) (c1 c2 : candidate) :
  NoDup (keys d) -> In (k, c1) d -> In (k, c2) d -> c1 = c2.
Proof.
  induction d as [|[k' c'] d IH]; simpl; [tauto|].
  intros Hnd H1 H2. inversion Hnd as [|? ? Hnotin Hnd']; subst.
  assert (Hk : forall c, In (k', c) d -> False).
  { intros c Hin. apply Hnotin. change k' with (fst (k', c)).
    now apply in_map. }
  destruct H1 as [E1|H1], H2 as [E2|H2].
  - congruence.
  - inversion E1; subst. exfalso. eauto.
  - inversion E2; subst. exfalso. eauto.
  - eauto.
Qed.

End DictFacts.

(** ** Grouping: one entry per user, carrying the best rounded score *)

Section GroupingFacts.

Variable threshold : Q.

Lemma group_step_fails (d : user_matches) (h : hit) :
  passes threshold h = false -> group_step threshold d h = d.
Proof.
  unfold group_step, passes. intro E. now rewrite E.
Qed.

Lemma group_step_passes (d : user_matches) (h : hit) :
  passes threshold h = true ->
  group_step threshold d h =
  match dict_get (user_id (fst h)) d with
  | None => dict_set (user_id (fst h)) (entry_of h) d
  | Some c =>
    if gt (1 - snd h) (similarity c)
    then dict_set (user_id (fst h)) (entry_of h) d
    else d
  end.
Proof.
  unfold group_step, passes. intro E. now rewrite E.
Qed.

(** The keys after a step: the key of a passing hit is added. *)
Lemma keys_group_step (d : user_matches) (h : hit) :
  keys (group_step threshold d h) =
  if passes threshold h then add_key (keys d) (user_id (fst h)) else keys d.
Proof.
  destruct (passes threshold h) eqn:E.
  - rewrite (group_step_passes _ _ E).
    destruct (dict_get (user_id (fst h)) d) as [c|] eqn:G.
    + assert (Hin : In (user_id (fst h)) (keys d)).
      { apply dict_get_some in G. change (user_id (fst h)) with (fst (user_id (fst h), c)).
        now apply in_map. }
      destruct (gt (1 - snd h) (similarity c)).
      * apply keys_dict_set.
      * unfold add_key. apply mem_key_iff in Hin. now rewrite Hin.
    + apply keys_dict_set.
  - now rewrite (group_step_fails _ _ E).
Qed.

Lemma keys_fold_group (hits : list hit) (d : user_matches) :
  keys (fold_left (group_step threshold) hits d) =
  fold_left add_key (map (fun h => user_id (fst h)) (filter (passes threshold) hits))
            (keys d).
Proof.
  revert d. induction hits as [|h hits IH]; intro d; simpl; [reflexivity|].
  rewrite IH, keys_group_step.
  destruct (passes threshold h); reflexivity.
Qed.

(** The groups are the distinct users of the passing hits, in the order
    in which the matcher first returned them. *)
Lemma keys_group_by_user (hits : list hit) :
  keys (group_by_user threshold hits) =
  first_seen (map (fun h => user_id (fst h)) (filter (passes threshold) hits)).
Proof. unfold group_by_user, first_seen. apply keys_fold_group. Qed.

Lemma fold_add_key_NoDup (ks l : list Z) :
  NoDup l -> NoDup (fold_left add_key ks l).
Proof.
  revert l. induction ks as [|k ks IH]; intros l H; simpl; [assumption|].
  apply IH, add_key_NoDup, H.
Qed.

Lemma fold_add_key_In (ks l : list Z) (x : Z) :
  In x (fold_left add_key ks l) <-> In x l \/ In x ks.
Proof.
  revert l. induction ks as [|k ks IH]; intro l; simpl; [tauto|].
  rewrite IH, add_key_In. intuition (subst; auto).
Qed.

Lemma first_seen_NoDup (ks : list Z) : NoDup (first_seen ks).
Proof. apply fold_add_key_NoDup. constructor. Qed.

Lemma first_seen_In (ks : list Z) (x : Z) : In x (first_seen ks) <-> In x ks.
Proof. unfold first_seen. rewrite fold_add_key_In. simpl. tauto. Qed.

Lemma group_inv_nil : group_inv threshold [] [].
Proof.
  repeat split; simpl; try tauto. constructor.
Qed.

Lemma group_inv_step (seen : list hit) (d : user_matches) (h : hit) :
  group_inv threshold seen d ->
  group_inv threshold (seen ++ [h]) (group_step threshold d h).
Proof.
  intros (Hnd & Hsrc & Hmax).
  assert (Hnd' : NoDup (keys (group_step threshold d h))).
  { rewrite keys_group_step. destruct (passes threshold h); [|assumption].
    now apply add_key_NoDup. }
  split; [exact Hnd'|].
  destruct (passes threshold h) eqn:P.
  2:{ rewrite (group_step_fails _ _ P). split.
      - intros k c Hin. destruct (Hsrc k c Hin) as (h0 & ? & ? & ? & ?).
        exists h0. rewrite in_app_iff. auto.
      - intros h0 Hin P0. apply in_app_iff in Hin.
        destruct Hin as [Hin|[<- |[]]]; [auto|congruence]. }
  rewrite (group_step_passes _ _ P) in *.
  set (k0 := user_id (fst h)) in *.
  assert (Hset :
    (forall k c, In (k, c) (dict_set k0 (entry_of h) d) ->
       exists h1, In h1 (seen ++ [h]) /\ passes threshold h1 = true
                  /\ user_id (fst h1) = k /\ c = entry_of h1)).
  { intros k c Hin. apply dict_set_in in Hin. destruct Hin as [E|Hin].
    - inversion E; subst. exists h. rewrite in_app_iff. simpl. auto.
    - destruct (Hsrc k c Hin) as (h0 & ? & ? & ? & ?).
      exists h0. rewrite in_app_iff. auto. }
  assert (Hkeep :
    (forall k c, In (k, c) d ->
       exists h1, In h1 (seen ++ [h]) /\ passes threshold h1 = true
                  /\ user_id (fst h1) = k /\ c = entry_of h1)).
  { intros k c Hin. destruct (Hsrc k c Hin) as (h0 & ? & ? & ? & ?).
    exists h0. rewrite in_app_iff. auto. }
  destruct (dict_get k0 d) as [c0|] eqn:G.
  - pose proof (dict_get_some _ _ G) as Hin0.
    destruct (Hsrc _ _ Hin0) as (h0 & _ & _ & _ & Ec0).
    destruct (gt (1 - snd h) (similarity c0)) eqn:Egt.
    + (* the entry of the user is replaced *)
      apply gt_iff in Egt. split; [exact Hset|].
      intros h1 Hin P1. apply in_app_iff in Hin.
      destruct Hin as [Hin|[<- |[]]].
      * destruct (Hmax h1 Hin P1) as (c1 & Hin1 & Hle).
        destruct (Z.eq_dec (user_id (fst h1)) k0) as [E|NE].
        -- exists (entry_of h). split; [rewrite E; apply dict_set_new|].
           rewrite E in Hin1.
           rewrite (@dict_unique d _ _ _ Hnd Hin1 Hin0) in Hle.
           simpl. rewrite <- (round3_idem (1 - snd h1)).
           apply round3_mono. lra.
        -- exists c1. split; [now apply dict_set_other|assumption].
      * exists (entry_of h). split; [apply dict_set_new|]. simpl. lra.
    + (* the entry of the user stays *)
      apply gt_false_iff in Egt. split; [exact Hkeep|].
      intros h1 Hin P1. apply in_app_iff in Hin.
      destruct Hin as [Hin|[<- |[]]]; [auto|].
      exists c0. split; [exact Hin0|].
      rewrite Ec0 in *. simpl in *.
      rewrite <- (round3_idem (1 - snd h0)). now apply round3_mono.
  - (* a new user *)
    split; [exact Hset|].
    intros h1 Hin P1. apply in_app_iff in Hin.
    destruct Hin as [Hin|[<- |[]]].
    * destruct (Hmax h1 Hin P1) as (c1 & Hin1 & Hle).
      exists c1. split; [|assumption]. apply dict_set_other; [assumption|].
      intro E. apply dict_get_none in G. apply G.
      rewrite <- E. change (user_id (fst h1)) with (fst (user_id (fst h1), c1)).
      now apply in_map.
    * exists (entry_of h). split; [apply dict_set_new|]. simpl. lra.
Qed.

Lemma group_inv_fold (hits seen : list hit) (d : user_matches) :
  group_inv threshold seen d ->
  group_inv threshold (seen ++ hits)
            (fold_left (group_step threshold) hits d).
Proof.
  revert seen d. induction hits as [|h hits IH]; intros seen d H; simpl.
  - now rewrite app_nil_r.
  - replace (seen ++ h :: hits) with ((seen ++ [h]) ++ hits)
      by (rewrite <- app_assoc; reflexivity).
    apply IH, group_inv_step, H.
Qed.

Lemma group_by_user_inv (hits : list hit) :
  group_inv threshold hits (group_by_user threshold hits).
Proof. apply (group_inv_fold hits (seen := [])), group_inv_nil. Qed.

End GroupingFacts.

(** ** The stable descending sort of main.py *)

Section SortFacts.

Lemma insert_desc_length (x : candidate) (l : list candidate) :
  List.length (Interactive.insert_desc x l) = S (List.length l).
Proof.
  induction l as [|y l IH]; simpl; [reflexivity|].
  destruct (gt (similarity y) (similarity x)); simpl; congruence.
Qed.

Lemma sort_desc_length (l : list candidate) :
  List.length (Interactive.sort_desc l) = List.length l.
Proof.
  induction l as [|x l IH]; simpl; [reflexivity|].
  rewrite insert_desc_length. congruence.
Qed.

Lemma insert_desc_In (x y : candidate) (l : list candidate) :
  In y (Interactive.insert_desc x l) <-> y = x \/ In y l.
Proof.
  induction l as [|z l IH]; simpl.
  - intuition congruence.
  - destruct (gt (similarity z) (similarity x)); simpl.
    + rewrite IH. intuition congruence.
    + intuition congruence.
Qed.

Lemma sort_desc_In (y : candidate) (l : list candidate) :
  In y (Interactive.sort_desc l) <-> In y l.
Proof.
  induction l as [|x l IH]; simpl; [tauto|].
  rewrite insert_desc_In, IH. intuition congruence.
Qed.

Lemma insert_desc_sorted (x : candidate) (l : list candidate) :
  StronglySorted desc l -> StronglySorted desc (Interactive.insert_desc x l).
Proof.
  induction l as [|y l IH]; intro Hs; simpl.
  - repeat constructor.
  - inversion Hs as [|? ? Hs' Hall]; subst.
    destruct (gt (similarity y) (similarity x)) eqn:E.
    + apply gt_iff in E. constructor; [auto|].
      apply Forall_forall. intros z Hz. apply insert_desc_In in Hz.
      destruct Hz as [->|Hz].
      * unfold desc. lra.
      * rewrite Forall_forall in Hall. auto.
    + apply gt_false_iff in E. constructor; [assumption|].
      constructor; [exact E|].
      rewrite Forall_forall in *. intros z Hz. specialize (Hall z Hz).
      unfold desc in *. lra.
Qed.

Lemma sort_desc_sorted (l : list candidate) :
  StronglySorted desc (Interactive.sort_desc l).
Proof.
  induction l as [|x l IH]; simpl; [constructor|].
  now apply insert_desc_sorted.
Qed.



Lemma In_firstn (A : Type) (n : nat) (l : list A) (y : A) :
  In y (firstn n l) -> In y l.
Proof.
  revert l. induction n as [|n IH]; intros [|x l]; simpl; try tauto.
  intros [E|Hin]; auto.
Qed.

Lemma StronglySorted_firstn (A : Type) (R : A -> A -> Prop) (n : nat)
  (l : list A) : StronglySorted R l -> StronglySorted R (firstn n l).
Proof.
  revert l. induction n as [|n IH]; intros l Hs; simpl; [constructor|].
  destruct l as [|x l]; [constructor|].
  inversion Hs as [|? ? Hs' Hall]; subst. constructor; [auto|].
  rewrite Forall_forall in *. intros y Hy. apply Hall.
  eapply In_firstn; eauto.
Qed.

End SortFacts.

(** ** One step of the search loops *)

Section StepFacts.

Context `{External}.
Variable threshold : Q.

Lemma length_unique_users (name : str) :
  List.length (unique_users threshold (hits_of name)) = n_groups threshold name.
Proof. unfold unique_users, values, n_groups. apply length_map. Qed.

Lemma length_sorted_users (name : str) :
  List.length (Interactive.sorted_users threshold name)
  = n_groups threshold name.
Proof.
  unfold Interactive.sorted_users. rewrite sort_desc_length.
  apply length_unique_users.
Qed.

Lemma length_users_of (name : str) :
  List.length (Package.users_of threshold name) = n_groups threshold name.
Proof. apply length_unique_users. Qed.

Lemma interactive_step_blank (r : Interactive.results) (name : str) :
  nonblank name = false -> Interactive.search_step threshold r name = r.
Proof.
  unfold Interactive.search_step, nonblank. intro E. now rewrite E.
Qed.

Lemma interactive_step_unmatched (r : Interactive.results) (name : str) :
  nonblank name = true -> n_groups threshold name = 0%nat ->
  Interactive.search_step threshold r name =
  Interactive.mk_results (Interactive.resolved_names r)
    (Interactive.partial_matches r)
    (Interactive.ambiguous_names r ++ [name]) true.
Proof.
  unfold Interactive.search_step, nonblank. intros E Hn. rewrite E. simpl.
  rewrite length_sorted_users, Hn. reflexivity.
Qed.

Lemma interactive_step_resolved (r : Interactive.results) (name : str) :
  nonblank name = true -> n_groups threshold name = 1%nat ->
  exists c,
    unique_users threshold (hits_of name) = [c] /\
    Interactive.search_step threshold r name =
    Interactive.mk_results
      (Interactive.resolved_names r ++
       [Interactive.mk_resolved name (user_of c) (u "vector_auto")
                                (similarity c)])
      (Interactive.partial_matches r) (Interactive.ambiguous_names r)
      (Interactive.needs_clarification r).
Proof.
  unfold Interactive.search_step, nonblank. intros E Hn. rewrite E. simpl.
  rewrite length_sorted_users, Hn. simpl.
  rewrite <- length_unique_users in Hn.
  unfold Interactive.sorted_users. fold (hits_of name).
  destruct (unique_users threshold (hits_of name)) as [|c [|c' l]];
    try discriminate.
  exists c. split; reflexivity.
Qed.

Lemma interactive_step_ambiguous (r : Interactive.results) (name : str) :
  nonblank name = true -> (2 <= n_groups threshold name)%nat ->
  Interactive.search_step threshold r name =
  Interactive.mk_results (Interactive.resolved_names r)
    (Interactive.partial_matches r ++
     [Interactive.mk_partial name
        (firstn 5 (Interactive.sorted_users threshold name))])
    (Interactive.ambiguous_names r ++ [name]) true.
Proof.
  unfold Interactive.search_step, nonblank. intros E Hn. rewrite E. simpl.
  rewrite length_sorted_users.
  destruct (n_groups threshold name) as [|[|n]]; try lia. reflexivity.
Qed.

Lemma package_step_blank (r : Package.results) (name : str) :
  nonblank name = false -> Package.search_step threshold r name = r.
Proof.
  unfold Package.search_step, nonblank. intro E. now rewrite E.
Qed.

Lemma package_step_unmatched (r : Package.results) (name : str) :
  nonblank name = true -> n_groups threshold name = 0%nat ->
  Package.search_step threshold r name =
  Package.mk_results (Package.resolved_names r) (Package.partial_matches r)
    (Package.ambiguous_names r ++ [name]) true.
Proof.
  unfold Package.search_step, nonblank. intros E Hn. rewrite E. simpl.
  rewrite length_users_of, Hn. reflexivity.
Qed.

Lemma package_step_resolved (r : Package.results) (name : str) :
  nonblank name = true -> n_groups threshold name = 1%nat ->
  exists c,
    unique_users threshold (hits_of name) = [c] /\
    Package.search_step threshold r name =
    Package.mk_results
      (Package.resolved_names r ++ [Package.mk_resolved name c (similarity c)])
      (Package.partial_matches r) (Package.ambiguous_names r)
      (Package.needs_clarification r).
Proof.
  unfold Package.search_step, nonblank. intros E Hn. rewrite E. simpl.
  rewrite length_users_of, Hn. simpl.
  rewrite <- length_unique_users in Hn.
  unfold Package.users_of. fold (hits_of name).
  destruct (unique_users threshold (hits_of name)) as [|c [|c' l]];
    try discriminate.
  exists c. split; reflexivity.
Qed.

Lemma package_step_ambiguous (r : Package.results) (name : str) :
  nonblank name = true -> (2 <= n_groups threshold name)%nat ->
  Package.search_step threshold r name =
  Package.mk_results (Package.resolved_names r)
    (Package.partial_matches r ++
     [Package.mk_partial name (Package.users_of threshold name)])
    (Package.ambiguous_names r ++ [name]) true.
Proof.
  unfold Package.search_step, nonblank. intros E Hn. rewrite E. simpl.
  rewrite length_users_of.
  destruct (n_groups threshold name) as [|[|n]]; try lia. reflexivity.
Qed.

End StepFacts.

(** ** The groups of one input name *)

Section GroupFacts.

Context `{External}.

Lemma values_ids (t : Q) (hits : list hit) :
  map id (unique_users t hits) = keys (group_by_user t hits).
Proof.
  destruct (group_by_user_inv t hits) as (_ & Hsrc & _).
  unfold unique_users, values, keys.
  revert Hsrc. generalize (group_by_user t hits) as d.
  induction d as [|[k c] d IH]; intro Hsrc; simpl; [reflexivity|].
  f_equal.
  - destruct (Hsrc k c (or_introl eq_refl)) as (h & _ & _ & Hk & ->).
    exact Hk.
  - apply IH. intros k' c' Hin. apply Hsrc. now right.
Qed.


Lemma unique_users_NoDup (t : Q) (hits : list hit) :
  NoDup (map id (unique_users t hits)).
Proof.
  rewrite values_ids. destruct (group_by_user_inv t hits) as (Hnd & _).
  exact Hnd.
Qed.

Lemma unique_users_max (t : Q) (hits : list hit) (c : candidate) :
  In c (unique_users t hits) -> carries_rounded_max hits c.
Proof.
  destruct (group_by_user_inv t hits) as (Hnd & Hsrc & Hmax).
  intro Hin. apply in_map_iff in Hin. destruct Hin as ([k c'] & Ec & Hin).
  simpl in Ec. subst c'.
  destruct (Hsrc k c Hin) as (h & Hh & Ph & Hk & Ec).
  split; [exists h; auto|].
  intros h' Hh' Hid.
  assert (Eid : id c = k) by (rewrite Ec; exact Hk).
  destruct (passes t h') eqn:P'.
  - destruct (Hmax h' Hh' P') as (c1 & Hin1 & Hle).
    rewrite Hid, Eid in Hin1.
    now rewrite (@dict_unique _ _ _ _ Hnd Hin Hin1).
  - rewrite Ec. simpl. apply round3_mono.
    unfold passes in *. apply ge_iff in Ph.
    assert (Hlt : ~ t <= 1 - snd h').
    { intro Hle. apply ge_iff in Hle. congruence. }
    apply Qnot_le_lt in Hlt. lra.
Qed.

(** Every user with a passing hit has a group. *)
Lemma unique_users_complete (t : Q) (hits : list hit) (h : hit) :
  In h hits -> passes t h = true ->
  In (user_id (fst h)) (map id (unique_users t hits)).
Proof.
  intros Hin P. rewrite values_ids, keys_group_by_user, first_seen_In.
  apply in_map_iff. exists h. split; [reflexivity|].
  apply filter_In. auto.
Qed.

Lemma passes_mono (t1 t2 : Q) (h : hit) :
  t1 <= t2 -> passes t2 h = true -> passes t1 h = true.
Proof.
  unfold passes. intros Hle P. apply ge_iff in P. apply ge_iff. lra.
Qed.

Lemma n_groups_mono (t1 t2 : Q) (name : str) :
  t1 <= t2 -> (n_groups t2 name <= n_groups t1 name)%nat.
Proof.
  intro Hle. unfold n_groups.
  rewrite <- (length_map fst (group_by_user t2 _)).
  rewrite <- (length_map fst (group_by_user t1 _)).
  fold (keys (group_by_user t2 (hits_of name))).
  fold (keys (group_by_user t1 (hits_of name))).
  rewrite (keys_group_by_user t2 (hits_of name)).
  rewrite (keys_group_by_user t1 (hits_of name)).
  apply NoDup_incl_length; [apply first_seen_NoDup|].
  intros k Hk. rewrite first_seen_In in Hk. rewrite first_seen_In.
  apply in_map_iff in Hk. destruct Hk as (h & <- & Hin).
  apply filter_In in Hin. destruct Hin as [Hin P].
  apply in_map_iff. exists h. split; [reflexivity|].
  apply filter_In. split; [assumption|]. eapply passes_mono; eauto.
Qed.

End GroupFacts.

(** ** The unsorted groups are in descending order when the hits are *)

Section NearestFirst.

Variable threshold : Q.









End NearestFirst.

(** ** The loops over the input names *)

Section LoopFacts.

Context `{External}.
Variable threshold : Q.

Lemma groups_cases (name : str) :
  (n_groups threshold name = 0
   \/ n_groups threshold name = 1
   \/ 2 <= n_groups threshold name)%nat.
Proof. lia. Qed.

Lemma interactive_buckets (names : list str) (r : Interactive.results) :
  let R := fold_left (Interactive.search_step threshold) names r in
  map Interactive.input_name (Interactive.resolved_names R)
  = map Interactive.input_name (Interactive.resolved_names r)
    ++ names_of threshold is_resolved names
  /\ map Interactive.pm_input_name (Interactive.partial_matches R)
     = map Interactive.pm_input_name (Interactive.partial_matches r)
       ++ names_of threshold is_ambiguous names
  /\ Interactive.ambiguous_names R
     = Interactive.ambiguous_names r ++ names_of threshold is_pending names.
Proof.
  unfold names_of.
  revert r. induction names as [|name names IH]; intro r; simpl.
  - now rewrite !app_nil_r.
  - specialize (IH (Interactive.search_step threshold r name)).
    simpl in IH. destruct IH as (IH1 & IH2 & IH3).
    rewrite IH1, IH2, IH3. clear IH1 IH2 IH3.
    unfold is_pending, kind_of.
    destruct (nonblank name) eqn:B.
    2:{ rewrite (interactive_step_blank _ _ _ B). simpl. auto. }
    destruct (groups_cases name) as [Hn|[Hn|Hn]].
    + rewrite (interactive_step_unmatched _ _ _ B Hn), Hn. simpl.
      rewrite <- !app_assoc. auto.
    + destruct (interactive_step_resolved _ r _ B Hn) as (c & _ & ->).
      rewrite Hn. simpl. rewrite !map_app, <- !app_assoc. auto.
    + rewrite (interactive_step_ambiguous _ _ _ B Hn).
      destruct (n_groups threshold name) as [|[|n]]; try lia. simpl.
      rewrite !map_app, <- !app_assoc. auto.
Qed.

Lemma package_buckets (names : list str) (r : Package.results) :
  let R := fold_left (Package.search_step threshold) names r in
  map Package.input_name (Package.resolved_names R)
  = map Package.input_name (Package.resolved_names r)
    ++ names_of threshold is_resolved names
  /\ map Package.pm_input_name (Package.partial_matches R)
     = map Package.pm_input_name (Package.partial_matches r)
       ++ names_of threshold is_ambiguous names
  /\ Package.ambiguous_names R
     = Package.ambiguous_names r ++ names_of threshold is_pending names.
Proof.
  unfold names_of.
  revert r. induction names as [|name names IH]; intro r; simpl.
  - now rewrite !app_nil_r.
  - specialize (IH (Package.search_step threshold r name)).
    simpl in IH. destruct IH as (IH1 & IH2 & IH3).
    rewrite IH1, IH2, IH3. clear IH1 IH2 IH3.
    unfold is_pending, kind_of.
    destruct (nonblank name) eqn:B.
    2:{ rewrite (package_step_blank _ _ _ B). simpl. auto. }
    destruct (groups_cases name) as [Hn|[Hn|Hn]].
    + rewrite (package_step_unmatched _ _ _ B Hn), Hn. simpl.
      rewrite <- !app_assoc. auto.
    + destruct (package_step_resolved _ r _ B Hn) as (c & _ & ->).
      rewrite Hn. simpl. rewrite !map_app, <- !app_assoc. auto.
    + rewrite (package_step_ambiguous _ _ _ B Hn).
      destruct (n_groups threshold name) as [|[|n]]; try lia. simpl.
      rewrite !map_app, <- !app_assoc. auto.
Qed.

(** Resolved and pending names split the non-blank names. *)
Lemma split_nonblank (names : list str) :
  (List.length (names_of threshold is_resolved names)
   + List.length (names_of threshold is_pending names)
   = List.length (filter nonblank names))%nat.
Proof.
  unfold names_of, is_pending.
  induction names as [|n names IH]; simpl; [reflexivity|].
  destruct (nonblank n); simpl; [|assumption].
  destruct (is_resolved (kind_of threshold n)); simpl; lia.
Qed.

Lemma interactive_partials (names : list str) (r : Interactive.results) :
  Forall (top_five threshold) (Interactive.partial_matches r) ->
  Forall (top_five threshold)
    (Interactive.partial_matches
       (fold_left (Interactive.search_step threshold) names r)).
Proof.
  revert r. induction names as [|name names IH]; intros r Hr; simpl;
    [assumption|].
  apply IH.
  destruct (nonblank name) eqn:B.
  2:{ now rewrite (interactive_step_blank _ _ _ B). }
  destruct (groups_cases name) as [Hn|[Hn|Hn]].
  - now rewrite (interactive_step_unmatched _ _ _ B Hn).
  - destruct (interactive_step_resolved _ r _ B Hn) as (c & _ & ->).
    assumption.
  - rewrite (interactive_step_ambiguous _ _ _ B Hn). simpl.
    apply Forall_app. split; [assumption|].
    constructor; [|constructor]. split; [reflexivity|exact Hn].
Qed.

End LoopFacts.

(** ** Resolution: the claims *)

Section SortedGroups.

Lemma insert_desc_perm (x : candidate) (l : list candidate) :
  Permutation (Interactive.insert_desc x l) (x :: l).
Proof.
  induction l as [|y l IH]; simpl; [reflexivity|].
  destruct (gt (similarity y) (similarity x)); [|reflexivity].
  rewrite IH. apply perm_swap.
Qed.

Lemma sort_desc_perm (l : list candidate) :
  Permutation (Interactive.sort_desc l) l.
Proof.
  induction l as [|x l IH]; simpl; [reflexivity|].
  rewrite insert_desc_perm. now constructor.
Qed.

Lemma NoDup_firstn (A : Type) (n : nat) (l : list A) :
  NoDup l -> NoDup (firstn n l).
Proof.
  revert l. induction n as [|n IH]; intros [|x l] Hnd; simpl;
    try constructor.
  - inversion Hnd; subst. intro Hin. apply In_firstn in Hin. contradiction.
  - inversion Hnd; subst. auto.
Qed.

Lemma aggregated_In `{External} (t : Q) (name : str) (cs : list candidate)
  (c : candidate) :
  aggregated t name cs -> In c cs -> In c (unique_users t (hits_of name)).
Proof.
  unfold aggregated, Package.users_of, Interactive.sorted_users.
  fold (hits_of name).
  intros [-> |[-> | ->]] Hin; [assumption| |apply In_firstn in Hin];
    rewrite sort_desc_In in Hin; exact Hin.
Qed.

Lemma aggregated_NoDup `{External} (t : Q) (name : str)
  (cs : list candidate) :
  aggregated t name cs -> NoDup (map id cs).
Proof.
  pose proof (unique_users_NoDup t (hits_of name)) as Hnd.
  assert (Hs : NoDup (map id (Interactive.sorted_users t name))).
  { unfold Interactive.sorted_users. fold (hits_of name).
    eapply Permutation_NoDup; [|exact Hnd].
    apply Permutation_map. symmetry. apply sort_desc_perm. }
  intros [-> |[-> | ->]]; [exact Hnd|exact Hs|].
  rewrite <- firstn_map. now apply NoDup_firstn.
Qed.

End SortedGroups.

Section ResolutionClaims.

Context `{External}.


(** C2 (amended).  The candidates the resolvers build for one input name
    hold at most one candidate per user id; every candidate stands for a
    hit of its user, carries that hit's similarity rounded to three
    decimals, and no hit of that user has a greater rounded similarity. *)
Theorem C2_one_candidate_per_person (t : Q) (name : str)
  (cs : list candidate) :
  aggregated t name cs ->
  NoDup (map id cs) /\ Forall (carries_rounded_max (hits_of name)) cs.
Proof.
  intro Ha. split; [now apply aggregated_NoDup with (t := t) (name := name)|].
  apply Forall_forall. intros c Hc.
  apply unique_users_max with (t := t).
  now apply aggregated_In with (cs := cs).
Qed.

(** C3.  Raising the threshold never adds a candidate: the number of
    groups of a name, the candidates of the package and the candidates
    main.py shows can only shrink, so an unmatched name stays unmatched and
    a resolved name never becomes ambiguous. *)
Theorem C3_threshold_monotone (name : str) (t1 t2 : Q) :
  t1 <= t2 ->
  (n_groups t2 name <= n_groups t1 name)%nat
  /\ (List.length (Package.users_of t2 name)
      <= List.length (Package.users_of t1 name))%nat
  /\ (List.length (firstn 5 (Interactive.sorted_users t2 name))
      <= List.length (firstn 5 (Interactive.sorted_users t1 name)))%nat
  /\ (kind_of t1 name = Unmatched -> kind_of t2 name = Unmatched)
  /\ (kind_of t1 name = Resolved -> kind_of t2 name <> Ambiguous).
Proof.
  intro Hle. pose proof (n_groups_mono name Hle) as Hn.
  repeat split.
  - exact Hn.
  - now rewrite !length_users_of.
  - rewrite !length_firstn, !length_sorted_users. lia.
  - unfold kind_of.
    destruct (n_groups t1 name) as [|[|n1]]; try discriminate.
    destruct (n_groups t2 name) as [|n2]; [reflexivity|lia].
  - unfold kind_of.
    destruct (n_groups t1 name) as [|[|n1]]; try discriminate.
    destruct (n_groups t2 name) as [|[|n2]]; try discriminate. lia.
Qed.

(** C9.  Both resolvers produce one outcome per non-blank input name, in
    input order: the resolved entries name the non-blank names with one
    group, the partial matches the non-blank names with two groups or
    more, [ambiguous_names] the non-blank names that are not resolved; a
    blank name is in no bucket, so resolved and pending entries together
    count the non-blank names. *)
Theorem C9_one_outcome_per_nonblank_name (names : list str) (t : Q)
  (config : Package.Config) (threshold : option Q) :
  let R := Interactive.search_names names t in
  let t' := match threshold with
            | None => Package.vector_db_similarity_threshold config
            | Some x => x
            end in
  let R' := Package.search_names config names threshold in
  (map Interactive.input_name (Interactive.resolved_names R)
     = names_of t is_resolved names
   /\ map Interactive.pm_input_name (Interactive.partial_matches R)
        = names_of t is_ambiguous names
   /\ Interactive.ambiguous_names R = names_of t is_pending names
   /\ (List.length (Interactive.resolved_names R)
       + List.length (Interactive.ambiguous_names R)
       = List.length (filter nonblank names))%nat)
  /\ (map Package.input_name (Package.resolved_names R')
        = names_of t' is_resolved names
      /\ map Package.pm_input_name (Package.partial_matches R')
           = names_of t' is_ambiguous names
      /\ Package.ambiguous_names R' = names_of t' is_pending names
      /\ (List.length (Package.resolved_names R')
          + List.length (Package.ambiguous_names R')
          = List.length (filter nonblank names))%nat).
Proof.
  intros R t' R'. split.
  - destruct (interactive_buckets t names Interactive.empty_results)
      as (H1 & H2 & H3).
    fold (Interactive.search_names names t) in H1, H2, H3. fold R in H1, H2, H3.
    simpl in H1, H2, H3. repeat split; try assumption.
    rewrite <- (length_map Interactive.input_name), H1, H3.
    apply split_nonblank.
  - destruct (package_buckets t' names Package.empty_results)
      as (H1 & H2 & H3).
    change (fold_left (Package.search_step t') names Package.empty_results)
      with R' in H1, H2, H3.
    simpl in H1, H2, H3. repeat split; try assumption.
    rewrite <- (length_map Package.input_name), H1, H3.
    apply split_nonblank.
Qed.

(** C10.  Every partial match of main.py's search carries the first five
    of the sorted groups of its name: at most five candidates, exactly
    five when more than five users cleared the threshold, in descending
    order of similarity. *)
Theorem C10_at_most_five_candidates (names : list str) (t : Q)
  (pm : Interactive.partial_match) :
  In pm (Interactive.partial_matches (Interactive.search_names names t)) ->
  Interactive.candidates pm
  = firstn 5 (Interactive.sorted_users t (Interactive.pm_input_name pm))
  /\ (List.length (Interactive.candidates pm) <= 5)%nat
  /\ List.length (Interactive.candidates pm)
     = Nat.min 5 (n_groups t (Interactive.pm_input_name pm))
  /\ StronglySorted desc (Interactive.candidates pm).
Proof.
  intro Hin.
  assert (Hall : Forall (top_five t)
            (Interactive.partial_matches (Interactive.search_names names t))).
  { apply interactive_partials. constructor. }
  rewrite Forall_forall in Hall. destruct (Hall pm Hin) as [E Hn].
  rewrite E. repeat split.
  - rewrite length_firstn. lia.
  - now rewrite length_firstn, length_sorted_users.
  - apply StronglySorted_firstn, sort_desc_sorted.
Qed.

End ResolutionClaims.

(** ** Resolution on the sample data *)

Section ResolutionExamples.

Example search_ahmet_interactive :
  @Interactive.search_names Sample.env [u "Arda Orçun"; u "  "; u "Ahmet"; u "Zzzqqq"]
                            (7 # 10)
  = Interactive.mk_results
      [Interactive.mk_resolved (u "Arda Orçun") Sample.arda_orcun
         (u "vector_auto") (1000 # 1000)]
      [Interactive.mk_partial (u "Ahmet") Sample.ahmet_candidates]
      [u "Ahmet"; u "Zzzqqq"] true.
Proof. vm_compute. reflexivity. Qed.

Example search_ahmet_package :
  Interactive.partial_matches
    (@Interactive.search_names Sample.env [u "Ahmet"] (7 # 10))
  = [Interactive.mk_partial (u "Ahmet") Sample.ahmet_candidates]
  /\ Package.partial_matches
       (@Package.search_names Sample.env Sample.config [u "Ahmet"] None)
     = [Package.mk_partial (u "Ahmet") Sample.ahmet_candidates].
Proof. split; vm_compute; reflexivity. Qed.


(** C2, as stated, fails: the one hit for Nicat has the similarity
    0.7004, and the candidate carries 0.7. *)
Lemma C2_raw_similarity_counterexample :
  @hits_of Sample.env (u "Nicat") = [(Sample.sahin_nicat, 2996 # 10000)]
  /\ @Package.users_of Sample.env (7 # 10) (u "Nicat")
     = [Sample.nicat_candidate]
  /\ ~ Forall (carries_raw_max (@hits_of Sample.env (u "Nicat")))
              (@Package.users_of Sample.env (7 # 10) (u "Nicat")).
Proof.
  assert (Eh : @hits_of Sample.env (u "Nicat")
               = [(Sample.sahin_nicat, 2996 # 10000)])
    by (vm_compute; reflexivity).
  assert (Eu : @Package.users_of Sample.env (7 # 10) (u "Nicat")
               = [Sample.nicat_candidate])
    by (vm_compute; reflexivity).
  split; [exact Eh|]. split; [exact Eu|].
  rewrite Eh, Eu. intro Hall. inversion Hall as [|? ? Hc _]; subst.
  destruct Hc as [(h & Hin & _ & Heq) _].
  destruct Hin as [<- |[]]. vm_compute in Heq. discriminate.
Qed.


Lemma C2_one_candidate_per_person_witness :
  @aggregated Sample.env (7 # 10) (u "Ahmet")
             (@Package.users_of Sample.env (7 # 10) (u "Ahmet"))
  /\ NoDup (map id (@Package.users_of Sample.env (7 # 10) (u "Ahmet")))
  /\ Forall (carries_rounded_max (@hits_of Sample.env (u "Ahmet")))
            (@Package.users_of Sample.env (7 # 10) (u "Ahmet")).
Proof.
  split; [left; reflexivity|].
  apply (@C2_one_candidate_per_person Sample.env (7 # 10) (u "Ahmet")).
  left; reflexivity.
Defined.

Lemma C3_threshold_monotone_witness :
  7 # 10 <= 85 # 100
  /\ (@n_groups Sample.env (85 # 100) (u "Ahmet")
      <= @n_groups Sample.env (7 # 10) (u "Ahmet"))%nat.
Proof.
  assert (Hle : 7 # 10 <= 85 # 100) by (unfold Qle; simpl; lia).
  split; [exact Hle|].
  exact (proj1 (@C3_threshold_monotone Sample.env (u "Ahmet") _ _ Hle)).
Defined.

Lemma C10_at_most_five_candidates_witness :
  @n_groups Sample.env (7 # 10) (u "Ali") = 7%nat
  /\ exists pm,
       In pm (Interactive.partial_matches
                (@Interactive.search_names Sample.env [u "Ali"] (7 # 10)))
       /\ List.length (Interactive.candidates pm) = 5%nat.
Proof.
  split; [vm_compute; reflexivity|].
  exists (Interactive.mk_partial (u "Ali")
            (firstn 5 (@Interactive.sorted_users Sample.env (7 # 10) (u "Ali")))).
  assert (Hin : In (Interactive.mk_partial (u "Ali")
            (firstn 5 (@Interactive.sorted_users Sample.env (7 # 10) (u "Ali"))))
          (Interactive.partial_matches
             (@Interactive.search_names Sample.env [u "Ali"] (7 # 10)))).
  { left. vm_compute. reflexivity. }
  split; [exact Hin|].
  destruct (@C10_at_most_five_candidates Sample.env [u "Ali"] (7 # 10) _ Hin)
    as (_ & _ & El & _).
  rewrite El. vm_compute. reflexivity.
Defined.

End ResolutionExamples.

(** ** Blank strings *)

Section BlankFacts.

Lemma lstrip_nil (s : str) : lstrip s = [] <-> forallb isspace s = true.
Proof.
  induction s as [|c s IH]; simpl; [tauto|].
  destruct (isspace c); simpl; [exact IH|].
  split; discriminate.
Qed.

Lemma forallb_rev (A : Type) (f : A -> bool) (l : list A) :
  forallb f (rev l) = forallb f l.
Proof.
  induction l as [|x l IH]; simpl; [reflexivity|].
  rewrite forallb_app, IH. simpl. rewrite andb_true_r. apply andb_comm.
Qed.

Lemma lstrip_spaces (s : str) :
  forallb isspace (lstrip s) = forallb isspace s.
Proof.
  induction s as [|c s IH]; simpl; [reflexivity|].
  destruct (isspace c) eqn:E; simpl; [exact IH|now rewrite E].
Qed.

(** [s.strip()] is empty exactly when [s] holds whitespace only. *)
Lemma strip_truthy (s : str) :
  truthy (strip s) = negb (forallb isspace s).
Proof.
  unfold strip, rstrip.
  destruct (forallb isspace s) eqn:E.
  - assert (El : lstrip s = []) by now apply lstrip_nil.
    rewrite El. reflexivity.
  - destruct (rev (lstrip (rev (lstrip s)))) as [|c r] eqn:Er; [|reflexivity].
    exfalso. apply (f_equal (@rev char)) in Er. rewrite rev_involutive in Er.
    simpl in Er. apply lstrip_nil in Er.
    rewrite forallb_rev, lstrip_spaces in Er. congruence.
Qed.




End BlankFacts.

(** ** Variant generation *)

Section VariantFacts.

Context `{External}.

Lemma replace_char (a b : char) (s : str) :
  replace [a] [b] s = map (fun c => if N.eqb c a then b else c) s.
Proof.
  unfold replace. induction s as [|c s IH]; simpl; [reflexivity|].
  unfold char_eqb. rewrite andb_true_r, (N.eqb_sym a c).
  destruct (N.eqb c a); simpl; now rewrite IH.
Qed.

(** The six replacements are one pass of the fixed mapping. *)
Lemma fold_diacritics_map (s : str) : fold_diacritics s = map fold_char s.
Proof.
  unfold fold_diacritics.
  change (u "ü") with [252%N]. change (u "u") with [117%N].
  change (u "ş") with [351%N]. change (u "s") with [115%N].
  change (u "ö") with [246%N]. change (u "o") with [111%N].
  change (u "ı") with [305%N]. change (u "i") with [105%N].
  change (u "ğ") with [287%N]. change (u "g") with [103%N].
  change (u "ç") with [231%N]. change (u "c") with [99%N].
  rewrite !replace_char, !map_map.
  apply map_ext. intro c. unfold fold_char.
  destruct (N.eqb_spec c 231) as [-> |_]; [reflexivity|].
  destruct (N.eqb_spec c 287) as [-> |_]; [reflexivity|].
  destruct (N.eqb_spec c 305) as [-> |_]; [reflexivity|].
  destruct (N.eqb_spec c 246) as [-> |_]; [reflexivity|].
  destruct (N.eqb_spec c 351) as [-> |_]; [reflexivity|].
  reflexivity.
Qed.

(** The texts of a row: every non-blank variant, once. *)
Lemma texts_of_spec (user_ : user) (vs : list str) :
  NoDup (texts_of user_ vs)
  /\ (forall v, In v (texts_of user_ vs)
                <-> In v vs /\ truthy (strip v) = true).
Proof.
  unfold texts_of, index_entries. rewrite map_map. simpl. rewrite map_id.
  split.
  - apply NoDup_filter, NoDup_nodup.
  - intro v. rewrite filter_In, nodup_In. tauto.
Qed.

Lemma last_default (A : Type) (l : list A) (d d' : A) :
  l <> [] -> last l d = last l d'.
Proof.
  induction l as [|x l IH]; [tauto|]. intros _.
  destruct l as [|y l]; [reflexivity|].
  change (last (y :: l) d = last (y :: l) d'). apply IH. discriminate.
Qed.

End VariantFacts.

(** ** Building the index: the claims *)

Section IndexClaims.

Context `{External}.

Lemma named_dec (user_ : user) : {named user_} + {~ named user_}.
Proof.
  unfold named. destruct (split_ws (lower (full_name user_))).
  - right. intro Hn. now apply Hn.
  - left. discriminate.
Qed.












(** The variants of the package: the seven strings of the specification
    are among them, and the indexed texts are the non-blank variants, each
    once. *)
Lemma package_variants_complete (user_ : user) :
  named user_ ->
  let fn := lower (full_name user_) in
  let prefix := lower (split_first (u "@") (email_address user_)) in
  exists vs first,
    Package.variants user_ = Ok vs
    /\ hd_error (split_ws fn) = Some first
    /\ In fn vs
    /\ In (map fold_char fn) vs
    /\ In first vs
    /\ In (last (split_ws fn) first) vs
    /\ In prefix vs
    /\ In (replace (u ".") (u " ") prefix) vs
    /\ In (strip (replace (u ", phd") [] (replace (u ", ph.d") [] fn))) vs
    /\ NoDup (texts_of user_ vs)
    /\ (forall v, In v (texts_of user_ vs)
                  <-> In v vs /\ truthy (strip v) = true).
Proof.
  intros Hn fn prefix. unfold named in Hn. fold fn in Hn.
  unfold Package.variants. fold fn. fold prefix.
  destruct (split_ws fn) as [|first toks] eqn:Es; [congruence|].
  eexists. exists first. split; [reflexivity|]. split; [reflexivity|].
  split; [cbn [In]; auto|].
  split; [rewrite <- fold_diacritics_map; cbn [In]; auto|].
  split; [cbn [In]; auto|].
  split.
  { destruct toks as [|t toks]; [cbn [In last]; auto|].
    right. right. right. left.
    unfold last_name. rewrite Es.
    change (1 <? List.length (first :: t :: toks))%nat with true. cbv iota.
    apply last_default. discriminate. }
  split; [cbn [In]; auto 10|].
  split; [cbn [In]; auto 10|].
  split; [cbn [In]; auto 10|].
  apply texts_of_spec.
Qed.

(** The variants of main.py: the first six strings, and no variant
    without the credential suffix. *)
Lemma interactive_variants_six (user_ : user) :
  named user_ ->
  let fn := lower (full_name user_) in
  let prefix := lower (split_first (u "@") (email_address user_)) in
  exists first,
    hd_error (split_ws fn) = Some first
    /\ Interactive.variants user_
       = Ok [ fn; map fold_char fn; first; last_name fn; prefix;
              replace (u ".") (u " ") prefix ].
Proof.
  intros Hn fn prefix. unfold named in Hn. fold fn in Hn.
  unfold Interactive.variants. fold fn. fold prefix.
  destruct (split_ws fn) as [|first toks] eqn:Es; [congruence|].
  exists first. split; [reflexivity|].
  now rewrite fold_diacritics_map.
Qed.

End IndexClaims.

(** ** Building the index on the sample data *)

Section IndexExamples.

Example fold_diacritics_example :
  fold_diacritics (u "şahin koç, özgür ılgaz") = u "sahin koc, ozgur ilgaz".
Proof. reflexivity. Qed.

Example split_ws_example :
  split_ws (u "  ali can   yılmaz ") = [u "ali"; u "can"; u "yılmaz"].
Proof. reflexivity. Qed.

Example blank_name_raises :
  @Package.index_users Sample.env [mk_user 7 (u "   ") (u "x@company.com")]
  = Raise IndexError.
Proof. reflexivity. Qed.



(** C8, main.py at the row of Şahin Nicat, Ph.D: the name without the
    credential suffix is not among the indexed texts of main.py, and it is
    among those of the package. *)
Theorem C8_main_py_keeps_credential_suffix :
  (exists vs,
     @Interactive.variants Sample.env Sample.sahin_nicat = Ok vs
     /\ vs = [ u "şahin nicat, ph.d"; u "sahin nicat, ph.d"; u "şahin";
               u "ph.d"; u "snicat"; u "snicat" ]
     /\ ~ In (u "şahin nicat") (texts_of Sample.sahin_nicat vs))
  /\ (exists vs,
        @Package.variants Sample.env Sample.sahin_nicat = Ok vs
        /\ In (u "şahin nicat") (texts_of Sample.sahin_nicat vs)).
Proof.
  split; eexists.
  - split; [reflexivity|]. split; [reflexivity|].
    vm_compute. intuition discriminate.
  - split; [reflexivity|]. vm_compute. tauto.
Qed.

Lemma package_variants_witness :
  @named Sample.env Sample.sahin_nicat
  /\ exists vs first,
       @Package.variants Sample.env Sample.sahin_nicat = Ok vs
       /\ hd_error (split_ws (lower_tr (full_name Sample.sahin_nicat)))
          = Some first.
Proof.
  assert (Hn : @named Sample.env Sample.sahin_nicat).
  { unfold named. vm_compute. discriminate. }
  split; [exact Hn|].
  destruct (@package_variants_complete Sample.env _ Hn)
    as (vs & first & Ev & Eh & _).
  exists vs, first. split; assumption.
Defined.

End IndexExamples.

(** ** The clarification merge *)

Section MergeFacts.

Import Interactive Clarification.
Context `{External}.

Lemma parse_choices_plain (ans : str) :
  plain ans = true -> parse_choices ans = [JStr (strip ans)].
Proof. unfold parse_choices, plain. now intros ->. Qed.

Lemma parse_choices_fallback (ans : str) :
  plain ans = false -> json_loads ans = None ->
  parse_choices ans = map JStr (fallback_choices ans).
Proof. unfold parse_choices, plain. now intros -> ->. Qed.

Lemma scan_candidates_str (s : str) (cs : list candidate) :
  scan_candidates (JStr s) cs = Ok (first_match s cs).
Proof.
  unfold first_match. induction cs as [|c cs IH]; simpl; [reflexivity|].
  destruct (matches s (c_full_name c)); [reflexivity|exact IH].
Qed.

Lemma fold_accept (l : list candidate) (a : acc) :
  fold_left accept l a
  = (fst a ++ map c_full_name l, snd a ++ map user_of l).
Proof.
  revert a. induction l as [|c l IH]; intros [names details]; simpl.
  - now rewrite !app_nil_r.
  - rewrite IH. simpl. now rewrite <- !app_assoc.
Qed.

Lemma scan_choices_str (ss : list str) (cs : list candidate) (a : acc) :
  scan_choices (map JStr ss) cs a
  = Ok (fold_left accept (accepted_for ss cs) a).
Proof.
  revert a. induction ss as [|s ss IH]; intro a; simpl; [reflexivity|].
  rewrite scan_candidates_str.
  destruct (first_match s cs) as [c|]; simpl; apply IH.
Qed.

Lemma scan_partial_matches_str (ss : list str) (pms : list partial_match)
  (a : acc) :
  scan_partial_matches (map JStr ss) pms a
  = Ok (fold_left accept (accepted ss pms) a).
Proof.
  revert a. induction pms as [|pm pms IH]; intro a; simpl; [reflexivity|].
  rewrite scan_choices_str, IH. unfold accepted. simpl.
  now rewrite fold_left_app.
Qed.

(** Whatever the choices are, the loops only append. *)
Lemma scan_candidates_from (choice : json) (cs : list candidate)
  (c : candidate) :
  scan_candidates choice cs = Ok (Some c) -> In c cs.
Proof.
  induction cs as [|c0 cs IH]; simpl; [discriminate|].
  destruct choice; try discriminate.
  destruct (matches s (c_full_name c0)).
  - intro E. inversion E. now left.
  - intro E. right. now apply IH.
Qed.

Lemma scan_choices_appends (choices : list json) (cs : list candidate)
  (a a' : acc) :
  scan_choices choices cs a = Ok a' ->
  exists l, a' = fold_left accept l a /\ incl l cs.
Proof.
  revert a. induction choices as [|ch choices IH]; intro a; simpl.
  - intro E. inversion E. exists []. split; [reflexivity|]. intros ? [].
  - destruct (scan_candidates ch cs) as [[c|]|e] eqn:Es; try discriminate.
    + intro E. destruct (IH _ E) as (l & -> & Hl).
      exists (c :: l). split; [reflexivity|].
      intros x [<- |Hx]; [eapply scan_candidates_from; eauto|auto].
    + apply IH.
Qed.

Lemma scan_partial_matches_appends (choices : list json)
  (pms : list partial_match) (a a' : acc) :
  scan_partial_matches choices pms a = Ok a' ->
  exists l, a' = fold_left accept l a
            /\ forall c, In c l -> exists pm, In pm pms /\ In c (candidates pm).
Proof.
  revert a. induction pms as [|pm pms IH]; intro a; simpl.
  - intro E. inversion E. exists []. split; [reflexivity|]. intros ? [].
  - destruct (scan_choices choices (candidates pm) a) as [a1|e] eqn:Es;
      try discriminate.
    intro E. destruct (scan_choices_appends _ _ _ Es) as (l1 & -> & H1).
    destruct (IH _ E) as (l2 & -> & H2).
    exists (l1 ++ l2). split; [now rewrite fold_left_app|].
    intros c Hc. apply in_app_iff in Hc. destruct Hc as [Hc|Hc].
    + exists pm. split; [now left|auto].
    + destruct (H2 c Hc) as (pm' & ? & ?). exists pm'. split; [now right|auto].
Qed.

(** The attendees of a meeting the merge returns. *)
Lemma merge_details (info : meeting_info) (sr : results) (ans : str)
  (m : meeting) :
  create_meeting_with_resolved_names info sr ans = Ok m ->
  exists l,
    user_details m = resolved_details sr ++ map user_of l
    /\ forall c, In c l ->
         exists pm, In pm (partial_matches sr) /\ In c (candidates pm).
Proof.
  unfold create_meeting_with_resolved_names.
  destruct (scan_partial_matches (parse_choices ans) (partial_matches sr) _)
    as [[names details]|e] eqn:Es; [|discriminate].
  destruct (scan_partial_matches_appends _ _ _ Es) as (l & El & Hl).
  rewrite fold_accept in El. simpl in El. inversion El; subst.
  destruct (schedule _ _ _) as [[st en]|]; [|discriminate].
  intro E. inversion E. simpl. exists l. auto.
Qed.

(** The merge on choices that are all strings. *)
Lemma merge_strings (info : meeting_info) (sr : results) (ans : str)
  (ss : list str) :
  parse_choices ans = map JStr ss -> schedulable info ->
  exists m,
    create_meeting_with_resolved_names info sr ans = Ok m
    /\ user_details m
       = resolved_details sr ++ map user_of (accepted ss (partial_matches sr)).
Proof.
  unfold create_meeting_with_resolved_names, schedulable. intros -> Hs.
  rewrite scan_partial_matches_str, fold_accept. simpl.
  destruct (schedule _ _ _) as [[st en]|]; [|congruence].
  eexists. split; reflexivity.
Qed.

Lemma first_match_none (s : str) (cs : list candidate) :
  (forall c, In c cs -> matches s (c_full_name c) = false) ->
  first_match s cs = None.
Proof.
  intro Hno. unfold first_match.
  destruct (find _ cs) as [c|] eqn:Ef; [|reflexivity].
  apply find_some in Ef. destruct Ef as [Hin Hm].
  rewrite (Hno c Hin) in Hm. discriminate.
Qed.

Lemma first_match_with_similarity (q : Q) (s : str) (cs : list candidate) :
  first_match s (map (with_similarity q) cs)
  = option_map (with_similarity q) (first_match s cs).
Proof.
  unfold first_match. induction cs as [|c cs IH]; simpl; [reflexivity|].
  destruct (matches s (c_full_name c)); [reflexivity|exact IH].
Qed.

(** Without a line of digits, [handle_clarification] reads the lines the
    way the fallback of the tool does. *)
Lemma instruction_choices_names (lines : list str) :
  (forall line, In line lines -> str_isdigit (strip line) = false) ->
  instruction_choices lines = Ok (flat_map parse_line lines).
Proof.
  induction lines as [|line lines IH]; intro Hd; [reflexivity|].
  cbn [instruction_choices flat_map]. unfold parse_line at 1.
  rewrite (Hd line (or_introl eq_refl)).
  rewrite IH by (intros l Hl; apply Hd; now right).
  destruct (truthy (strip line)); reflexivity.
Qed.

Lemma all_attendees_prefix (sr : results) (ans : str) (l : list str) :
  all_attendees sr ans = Ok l ->
  exists choices, l = resolved_full_names sr ++ choices.
Proof.
  unfold all_attendees.
  destruct (instruction_choices _) as [choices|e]; [|discriminate].
  intro E. inversion E. eauto.
Qed.

End MergeFacts.

(** ** The clarification merge: the claims *)

Section MergeClaims.

Import Interactive Clarification.
Context `{External}.

Lemma all_strings (choices : list json) :
  forallb is_str choices = true -> exists ss, choices = map JStr ss.
Proof.
  induction choices as [|j choices IH]; simpl.
  - exists []. reflexivity.
  - intro Hs. apply andb_true_iff in Hs. destruct Hs as [Hj Hs].
    destruct (IH Hs) as (ss & ->).
    destruct j; try discriminate. exists (s :: ss). reflexivity.
Qed.

Lemma prefix_keeps (sr : results) (m : meeting) (chosen : list user) :
  user_details m = resolved_details sr ++ chosen ->
  forall r, In r (resolved_names sr) -> In (matched_user r) (user_details m).
Proof.
  intros E r Hr. rewrite E. apply in_or_app. left.
  unfold resolved_details. now apply in_map.
Qed.

(** C4 (amended).  Whenever the merge returns a meeting, its attendee list
    starts with the attendees already resolved, unchanged and in their
    order, whether or not the answer matches a pending candidate.  The
    merge returns a meeting whenever every parsed choice is a string, as
    for every plain-text answer, and the scheduling succeeds.  The
    attendee names [handle_clarification] puts in its instruction start
    with the resolved names as well. *)
Theorem C4_resolved_attendees_preserved (info : meeting_info) (sr : results)
  (ans : str) :
  (forall m, create_meeting_with_resolved_names info sr ans = Ok m ->
     (exists chosen, user_details m = resolved_details sr ++ chosen)
     /\ forall r, In r (resolved_names sr) ->
          In (matched_user r) (user_details m))
  /\ (forallb is_str (parse_choices ans) = true -> schedulable info ->
      keeps_resolved sr (create_meeting_with_resolved_names info sr ans))
  /\ (plain ans = true -> schedulable info ->
      keeps_resolved sr (create_meeting_with_resolved_names info sr ans))
  /\ (forall l, all_attendees sr ans = Ok l ->
      exists choices, l = resolved_full_names sr ++ choices).
Proof.
  assert (Hstr : forallb is_str (parse_choices ans) = true ->
                 schedulable info ->
                 keeps_resolved sr
                   (create_meeting_with_resolved_names info sr ans)).
  { intros Hs Hsch. destruct (@all_strings _ Hs) as (ss & Ess).
    destruct (@merge_strings _ info sr ans ss Ess Hsch) as (m & Em & Ed).
    exists m. split; [exact Em|]. eapply prefix_keeps; eauto. }
  split; [|split; [exact Hstr|split]].
  - intros m Em. destruct (@merge_details _ _ _ _ _ Em) as (l & El & _).
    split; [eauto|]. eapply prefix_keeps; eauto.
  - intros Hp Hsch. apply Hstr; [|assumption].
    now rewrite (@parse_choices_plain _ _ Hp).
  - intros l El. eapply all_attendees_prefix; eauto.
Qed.

(** C5 (amended).  For a plain-text answer the merge raises no error for
    a pending name: when the scheduling succeeds it returns a meeting
    whose attendees are the resolved attendees followed by the candidates
    the answer matched.  A partial match none of whose candidates matches
    the answer adds nothing, so its name is left out of the attendee list
    and no candidate is picked for it; when no candidate of any partial
    match matches, the attendees are the resolved attendees alone. *)
Theorem C5_pending_names_left_out (info : meeting_info) (sr : results)
  (ans : str) :
  plain ans = true -> schedulable info ->
  (exists m,
     create_meeting_with_resolved_names info sr ans = Ok m
     /\ user_details m
        = resolved_details sr
          ++ map user_of (accepted [strip ans] (partial_matches sr))
     /\ ((forall pm c, In pm (partial_matches sr) -> In c (candidates pm) ->
            matches (strip ans) (c_full_name c) = false) ->
         user_details m = resolved_details sr))
  /\ (forall pm,
        (forall c, In c (candidates pm) ->
           matches (strip ans) (c_full_name c) = false) ->
        accepted_for [strip ans] (candidates pm) = []).
Proof.
  intros Hp Hsch.
  assert (Hnone : forall pm,
            (forall c, In c (candidates pm) ->
               matches (strip ans) (c_full_name c) = false) ->
            accepted_for [strip ans] (candidates pm) = []).
  { intros pm Hno. unfold accepted_for. simpl.
    now rewrite (@first_match_none _ _ _ Hno). }
  split; [|exact Hnone].
  destruct (@merge_strings _ info sr ans [strip ans]
              (@parse_choices_plain _ _ Hp) Hsch) as (m & Em & Ed).
  exists m. split; [exact Em|]. split; [exact Ed|].
  intro Hno. rewrite Ed.
  assert (E : accepted [strip ans] (partial_matches sr) = []).
  { unfold accepted. revert Hno. generalize (partial_matches sr) as pms.
    induction pms as [|pm pms IH]; intro Hno; [reflexivity|].
    cbn [flat_map]. rewrite Hnone.
    - apply IH. intros pm' c Hpm. apply Hno. now right.
    - intros c Hc. apply (Hno pm c); [now left|assumption]. }
  rewrite E. simpl. apply app_nil_r.
Qed.

(** C6 (amended).  An answer that starts with neither a brace nor a
    bracket is one choice, the stripped answer: no line is split off and
    no ordinal or e-mail is stripped.  The line-by-line parsing runs only
    as the fallback for an answer that starts with a brace or a bracket
    and is not valid JSON.  With string choices the merge accepts, for each
    partial match in turn and each choice in turn, the first candidate in
    candidate order that passes any of the four containment tests, in one
    pass, and the similarity of the candidates plays no part.
    [handle_clarification] reads the answer line by line, as the fallback
    does when no line consists of digits, only to word its instruction. *)
Theorem C6_one_choice_one_pass (info : meeting_info) (sr : results)
  (ans : str) :
  (plain ans = true -> parse_choices ans = [JStr (strip ans)])
  /\ (plain ans = false -> json_loads ans = None ->
      parse_choices ans = map JStr (fallback_choices ans))
  /\ (forall ss, parse_choices ans = map JStr ss -> schedulable info ->
      exists m,
        create_meeting_with_resolved_names info sr ans = Ok m
        /\ user_details m
           = resolved_details sr
             ++ map user_of (accepted ss (partial_matches sr)))
  /\ (forall s cs,
        first_match s cs
        = find (fun c =>
                  contains (lower s) (lower (c_full_name c))
                  || contains (lower (c_full_name c)) (lower s)
                  || contains (replace (u " ") [] (lower s))
                              (replace (u " ") [] (lower (c_full_name c)))
                  || contains (replace (u " ") [] (lower (c_full_name c)))
                              (replace (u " ") [] (lower s))) cs)
  /\ (forall q s cs,
        first_match s (map (with_similarity q) cs)
        = option_map (with_similarity q) (first_match s cs))
  /\ ((forall line, In line (split_char 10%N (strip ans)) ->
         str_isdigit (strip line) = false) ->
      all_attendees sr ans
      = Ok (resolved_full_names sr ++ fallback_choices ans)).
Proof.
  split; [apply parse_choices_plain|].
  split; [apply parse_choices_fallback|].
  split; [intros ss Ess Hsch; now apply merge_strings|].
  split; [reflexivity|].
  split; [intros q s cs; apply first_match_with_similarity|].
  intro Hd. unfold all_attendees, fallback_choices.
  now rewrite (@instruction_choices_names _ _ Hd).
Qed.

End MergeClaims.

(** ** The clarification merge on the sample data *)

Section MergeExamples.

Import Interactive Clarification.

Lemma sample_schedulable : @schedulable Sample.env Sample.info.
Proof. unfold schedulable. vm_compute. discriminate. Qed.

(** Scenario D: the line copied from the prompt selects Ahmet Kaya, next
    to the resolved Arda Orçun. *)
Example merge_copied_line :
  exists m,
    @create_meeting_with_resolved_names Sample.env Sample.info Sample.session
      (u "2. Ahmet Kaya (ahmet.kaya@company.com)") = Ok m
    /\ user_details m = [Sample.arda_orcun; Sample.ahmet_kaya].
Proof. eexists. split; [vm_compute; reflexivity|reflexivity]. Qed.

(** The fallback parsing of an answer that starts with a bracket and is
    not JSON. *)
Example fallback_lines :
  fallback_choices (u "[1. Ahmet Kaya (ahmet.kaya@company.com)" ++ nl
                    ++ u "Ali Demir (ali.demir@company.com)" ++ nl ++ nl
                    ++ u "  Arda ")
  = [u "Ahmet Kaya"; u "Ali Demir"; u "Arda"].
Proof. reflexivity. Qed.

(** [handle_clarification] on a copied line, a number and a bare name. *)
Example instruction_attendees :
  @all_attendees Sample.env Sample.session
    (u "2. Ahmet Kaya (ahmet.kaya@company.com)" ++ nl ++ u "007" ++ nl
     ++ u " Deniz ")
  = Ok [u "Arda Orçun"; u "Ahmet Kaya"; u "Choice 7"; u "Deniz"].
Proof. reflexivity. Qed.

(** An empty answer is contained in every name: the first candidate of
    the partial match is taken. *)
Example merge_empty_answer :
  exists m,
    @create_meeting_with_resolved_names Sample.env Sample.info Sample.session
      [] = Ok m
    /\ user_details m = [Sample.arda_orcun; Sample.ahmet_kaya].
Proof. eexists. split; [vm_compute; reflexivity|reflexivity]. Qed.

(** C4, as stated, fails: the answer [[1]] is a JSON list whose element
    is no string, [choice.lower()] raises, and the output is the error
    answer, which holds no attendee. *)
Lemma C4_json_answer_counterexample :
  @create_meeting_with_resolved_names Sample.env Sample.info Sample.session
    (u "[1]") = Raise AttributeError
  /\ ~ keeps_resolved Sample.session
         (@create_meeting_with_resolved_names Sample.env Sample.info
            Sample.session (u "[1]")).
Proof.
  assert (E : @create_meeting_with_resolved_names Sample.env Sample.info
                Sample.session (u "[1]") = Raise AttributeError)
    by (vm_compute; reflexivity).
  split; [exact E|]. rewrite E. intros (m & Em & _). discriminate.
Qed.

Lemma C4_resolved_attendees_witness :
  plain (u "Mehmet") = true
  /\ @schedulable Sample.env Sample.info
  /\ keeps_resolved Sample.session
       (@create_meeting_with_resolved_names Sample.env Sample.info
          Sample.session (u "Mehmet")).
Proof.
  split; [reflexivity|]. split; [exact sample_schedulable|].
  exact (proj1 (proj2 (proj2 (@C4_resolved_attendees_preserved Sample.env
                                Sample.info Sample.session (u "Mehmet"))))
               eq_refl sample_schedulable).
Defined.

(** C5, as stated, fails: the answer Mehmet matches no candidate of the
    pending name Ahmet, and the merge returns a meeting with the resolved
    attendee alone instead of an error. *)
Lemma C5_no_unresolved_error_counterexample :
  @accepted Sample.env [strip (u "Mehmet")] (partial_matches Sample.session)
  = []
  /\ exists m,
       @create_meeting_with_resolved_names Sample.env Sample.info
         Sample.session (u "Mehmet") = Ok m
       /\ user_details m = [Sample.arda_orcun].
Proof.
  split; [vm_compute; reflexivity|].
  eexists. split; [vm_compute; reflexivity|reflexivity].
Qed.

Lemma C5_pending_names_witness :
  plain (u "Mehmet") = true
  /\ @schedulable Sample.env Sample.info
  /\ exists m,
       @create_meeting_with_resolved_names Sample.env Sample.info
         Sample.session (u "Mehmet") = Ok m
       /\ user_details m
          = resolved_details Sample.session
            ++ map user_of
                 (@accepted Sample.env [strip (u "Mehmet")]
                    (partial_matches Sample.session)).
Proof.
  split; [reflexivity|]. split; [exact sample_schedulable|].
  destruct (proj1 (@C5_pending_names_left_out Sample.env Sample.info
                     Sample.session (u "Mehmet") eq_refl sample_schedulable))
    as (m & Em & Ed & _).
  exists m. split; assumption.
Defined.

(** C6, as stated, fails.  The answer [1. Ahmet] is matched as one choice
    with its ordinal: the policy of the specification accepts the first
    candidate that contains Ahmet, the code accepts none.  And for the
    choice alican the code takes the first candidate, which matches only
    without its spaces, where a second pass run only after an empty first
    pass takes the second. *)
Lemma C6_policy_counterexample :
  (@spec_accept_for Sample.env (spec_labels (u "1. Ahmet"))
     Sample.ahmet_candidates = Some Sample.kaya
   /\ exists m,
        @create_meeting_with_resolved_names Sample.env Sample.info
          Sample.session (u "1. Ahmet") = Ok m
        /\ user_details m = [Sample.arda_orcun])
  /\ (@spec_accept_for Sample.env [u "alican"] Sample.alican_candidates
      = nth_error Sample.alican_candidates 1
      /\ @first_match Sample.env (u "alican") Sample.alican_candidates
         = nth_error Sample.alican_candidates 0).
Proof.
  split; split.
  - vm_compute. reflexivity.
  - eexists. split; [vm_compute; reflexivity|reflexivity].
  - vm_compute. reflexivity.
  - vm_compute. reflexivity.
Qed.

Lemma C6_one_choice_witness :
  plain (u "2. Ahmet Kaya (ahmet.kaya@company.com)") = true
  /\ @schedulable Sample.env Sample.info
  /\ @parse_choices Sample.env (u "2. Ahmet Kaya (ahmet.kaya@company.com)")
     = [JStr (u "2. Ahmet Kaya (ahmet.kaya@company.com)")]
  /\ exists m,
       @create_meeting_with_resolved_names Sample.env Sample.info
         Sample.session (u "2. Ahmet Kaya (ahmet.kaya@company.com)") = Ok m
       /\ user_details m
          = resolved_details Sample.session
            ++ map user_of
                 (@accepted Sample.env
                    [u "2. Ahmet Kaya (ahmet.kaya@company.com)"]
                    (partial_matches Sample.session)).
Proof.
  pose proof (@C6_one_choice_one_pass Sample.env Sample.info Sample.session
                (u "2. Ahmet Kaya (ahmet.kaya@company.com)"))
    as (Hplain & _ & Hmerge & _).
  split; [reflexivity|]. split; [exact sample_schedulable|].
  split; [exact (Hplain eq_refl)|].
  exact (Hmerge [u "2. Ahmet Kaya (ahmet.kaya@company.com)"]
                (Hplain eq_refl) sample_schedulable).
Defined.

End MergeExamples.

(** * Further properties *)

(** ** The search loops as a whole *)

Section SearchExtras.

Context `{External}.

Lemma fold_add_key_length (ks l : list Z) :
  (List.length (fold_left add_key ks l) <= List.length l + List.length ks)%nat.
Proof.
  revert l. induction ks as [|k ks IH]; intro l; simpl; [lia|].
  specialize (IH (add_key l k)).
  assert (List.length (add_key l k) <= S (List.length l))%nat.
  { unfold add_key. destruct (existsb (Z.eqb k) l); [lia|].
    rewrite length_app. simpl. lia. }
  lia.
Qed.

(** X1.  A query never yields more groups than hits that cleared the
    threshold: the package attaches at most as many candidates as the
    store returned hits, so at most ten when the store honours
    [n_results]. *)
Theorem groups_bounded_by_hits (t : Q) (name : str) :
  (n_groups t name
   <= List.length (filter (passes t) (hits_of name))
   <= List.length (hits_of name))%nat
  /\ ((List.length (hits_of name) <= 10)%nat ->
      (List.length (Package.users_of t name) <= 10)%nat).
Proof.
  assert (Hg : (n_groups t name
                <= List.length (filter (passes t) (hits_of name)))%nat).
  { unfold n_groups.
    rewrite <- (length_map fst (group_by_user t (hits_of name))).
    fold (keys (group_by_user t (hits_of name))).
    rewrite (keys_group_by_user t (hits_of name)). unfold first_seen.
    etransitivity; [apply fold_add_key_length|]. simpl.
    now rewrite length_map. }
  assert (Hf : (List.length (filter (passes t) (hits_of name))
                <= List.length (hits_of name))%nat)
    by apply filter_length_le.
  split; [split; assumption|].
  intro Hten. rewrite length_users_of. lia.
Qed.

(** X2.  When the threshold has at most three decimals, every candidate
    reports a similarity that is at least the threshold. *)
Theorem reported_similarity_clears_threshold (t : Q) (name : str)
  (cs : list candidate) :
  round3 t == t -> aggregated t name cs ->
  Forall (fun c => t <= similarity c) cs.
Proof.
  intros Ht Ha. apply Forall_forall. intros c Hc.
  pose proof (@aggregated_In _ t name cs c Ha Hc) as Hin.
  destruct (unique_users_max t (hits_of name) c Hin) as [(h & Hh & ->) _].
  destruct (group_by_user_inv t (hits_of name)) as (_ & Hsrc & _).
  apply in_map_iff in Hin. destruct Hin as ([k c'] & Ec & Hin).
  simpl in Ec. subst c'.
  destruct (Hsrc _ _ Hin) as (h' & _ & Hp & _ & Ec).
  rewrite Ec. simpl. unfold passes in Hp. apply ge_iff in Hp.
  rewrite <- Ht. now apply round3_mono.
Qed.

End SearchExtras.

Section SearchComposition.

Context `{External}.
Variable t : Q.

Lemma results_app_empty_l (r : Interactive.results) :
  results_app Interactive.empty_results r = r.
Proof. now destruct r. Qed.

Lemma results_app_assoc (a b c : Interactive.results) :
  results_app (results_app a b) c = results_app a (results_app b c).
Proof.
  unfold results_app. simpl. now rewrite <- !app_assoc, orb_assoc.
Qed.

Lemma interactive_step_shift (r : Interactive.results) (name : str) :
  Interactive.search_step t r name
  = results_app r
      (Interactive.search_step t Interactive.empty_results name).
Proof.
  unfold Interactive.search_step, results_app.
  destruct (negb (truthy (strip name))); simpl.
  - destruct r. simpl. now rewrite !app_nil_r, orb_false_r.
  - destruct (Nat.eqb _ 1).
    + destruct (Interactive.sorted_users t name); destruct r; simpl;
        now rewrite ?app_nil_r, ?orb_false_r.
    + destruct (Nat.ltb 1 _); destruct r; simpl;
        now rewrite ?app_nil_r, ?orb_true_r.
Qed.

Lemma interactive_fold_shift (names : list str) (r : Interactive.results) :
  fold_left (Interactive.search_step t) names r
  = results_app r
      (fold_left (Interactive.search_step t) names Interactive.empty_results).
Proof.
  revert r. induction names as [|name names IH]; intro r; simpl.
  - destruct r. unfold results_app. simpl.
    now rewrite !app_nil_r, orb_false_r.
  - rewrite IH, (IH (Interactive.search_step t _ name)).
    rewrite (interactive_step_shift r name). apply results_app_assoc.
Qed.

Lemma package_step_shift (r : Package.results) (name : str) :
  Package.search_step t r name
  = package_results_app r
      (Package.search_step t Package.empty_results name).
Proof.
  unfold Package.search_step, package_results_app.
  destruct (negb (truthy (strip name))); simpl.
  - destruct r. simpl. now rewrite !app_nil_r, orb_false_r.
  - destruct (Nat.eqb _ 1).
    + destruct (Package.users_of t name); destruct r; simpl;
        now rewrite ?app_nil_r, ?orb_false_r.
    + destruct (Nat.ltb 1 _); destruct r; simpl;
        now rewrite ?app_nil_r, ?orb_true_r.
Qed.

Lemma package_results_app_assoc (a b c : Package.results) :
  package_results_app (package_results_app a b) c
  = package_results_app a (package_results_app b c).
Proof.
  unfold package_results_app. simpl. now rewrite <- !app_assoc, orb_assoc.
Qed.

Lemma package_fold_shift (names : list str) (r : Package.results) :
  fold_left (Package.search_step t) names r
  = package_results_app r
      (fold_left (Package.search_step t) names Package.empty_results).
Proof.
  revert r. induction names as [|name names IH]; intro r; simpl.
  - destruct r. unfold package_results_app. simpl.
    now rewrite !app_nil_r, orb_false_r.
  - rewrite IH, (IH (Package.search_step t _ name)).
    rewrite (package_step_shift r name). apply package_results_app_assoc.
Qed.

(** The flag says whether a name is pending. *)
Lemma interactive_flag_step (r : Interactive.results) (name : str) :
  Interactive.needs_clarification r
  = nonempty (Interactive.ambiguous_names r) ->
  Interactive.needs_clarification (Interactive.search_step t r name)
  = nonempty (Interactive.ambiguous_names (Interactive.search_step t r name)).
Proof.
  intro Hr. unfold Interactive.search_step.
  destruct (negb (truthy (strip name))); [assumption|].
  destruct (Nat.eqb _ 1).
  - destruct (Interactive.sorted_users t name); simpl; assumption.
  - destruct (Nat.ltb 1 _); simpl;
      destruct (Interactive.ambiguous_names r); reflexivity.
Qed.

Lemma package_flag_step (r : Package.results) (name : str) :
  Package.needs_clarification r = nonempty (Package.ambiguous_names r) ->
  Package.needs_clarification (Package.search_step t r name)
  = nonempty (Package.ambiguous_names (Package.search_step t r name)).
Proof.
  intro Hr. unfold Package.search_step.
  destruct (negb (truthy (strip name))); [assumption|].
  destruct (Nat.eqb _ 1).
  - destruct (Package.users_of t name); simpl; assumption.
  - destruct (Nat.ltb 1 _); simpl;
      destruct (Package.ambiguous_names r); reflexivity.
Qed.

Lemma interactive_flag_fold (names : list str) (r : Interactive.results) :
  Interactive.needs_clarification r
  = nonempty (Interactive.ambiguous_names r) ->
  Interactive.needs_clarification
    (fold_left (Interactive.search_step t) names r)
  = nonempty (Interactive.ambiguous_names
                (fold_left (Interactive.search_step t) names r)).
Proof.
  revert r. induction names as [|name names IH]; intros r Hr; simpl;
    [assumption|].
  apply IH, interactive_flag_step, Hr.
Qed.

Lemma package_flag_fold (names : list str) (r : Package.results) :
  Package.needs_clarification r = nonempty (Package.ambiguous_names r) ->
  Package.needs_clarification (fold_left (Package.search_step t) names r)
  = nonempty (Package.ambiguous_names
                (fold_left (Package.search_step t) names r)).
Proof.
  revert r. induction names as [|name names IH]; intros r Hr; simpl;
    [assumption|].
  apply IH, package_flag_step, Hr.
Qed.

(** The step of main.py is the step of the package, seen through the
    sort and the cut to five. *)
Lemma as_interactive_step (r : Package.results) (name : str) :
  as_interactive (Package.search_step t r name)
  = Interactive.search_step t (as_interactive r) name.
Proof.
  unfold Package.search_step, Interactive.search_step.
  destruct (negb (truthy (strip name))); [reflexivity|].
  unfold Interactive.sorted_users, Package.users_of.
  rewrite sort_desc_length.
  set (us := unique_users t (collection_query (lower name) 10)).
  destruct (Nat.eqb (List.length us) 1) eqn:E1.
  - destruct us as [|c [|c' us']]; try discriminate.
    unfold as_interactive. simpl. now rewrite map_app.
  - destruct (Nat.ltb 1 (List.length us));
      unfold as_interactive; simpl; now rewrite ?map_app.
Qed.

Lemma as_interactive_fold (names : list str) (r : Package.results) :
  as_interactive (fold_left (Package.search_step t) names r)
  = fold_left (Interactive.search_step t) names (as_interactive r).
Proof.
  revert r. induction names as [|name names IH]; intro r; simpl;
    [reflexivity|].
  now rewrite IH, as_interactive_step.
Qed.

End SearchComposition.

Section SearchTheorems.

Context `{External}.

(** X3.  Both searches set [needs_clarification] exactly when a name is
    pending, that is when [ambiguous_names] is not empty; a search over
    blank names only, or over no name, returns the empty results with the
    flag unset. *)
Theorem needs_clarification_iff_pending (names : list str) (t : Q)
  (config : Package.Config) (threshold : option Q) :
  Interactive.needs_clarification (Interactive.search_names names t)
  = nonempty (Interactive.ambiguous_names (Interactive.search_names names t))
  /\ Package.needs_clarification
       (Package.search_names config names threshold)
     = nonempty (Package.ambiguous_names
                   (Package.search_names config names threshold))
  /\ (forallb (fun n => negb (nonblank n)) names = true ->
      Interactive.search_names names t = Interactive.empty_results
      /\ Package.search_names config names threshold
         = Package.empty_results).
Proof.
  split; [now apply interactive_flag_fold|].
  split; [now apply package_flag_fold|].
  unfold Interactive.search_names, Package.search_names.
  generalize (match threshold with
              | Some t0 => t0
              | None => Package.vector_db_similarity_threshold config
              end) as t'.
  intros t'.
  induction names as [|name names IH]; intro Hb; [now split|].
  simpl in Hb. apply andb_true_iff in Hb. destruct Hb as [Hn Hb].
  apply negb_true_iff in Hn. simpl.
  rewrite (@interactive_step_blank _ t _ _ Hn).
  rewrite (@package_step_blank _ t' _ _ Hn). now apply IH.
Qed.

(** X4.  A search over two lists of names, one after the other, is the
    two searches put together bucket by bucket: the result for a name
    does not depend on the names around it. *)
Theorem search_names_app (names1 names2 : list str) (t : Q)
  (config : Package.Config) (threshold : option Q) :
  Interactive.search_names (names1 ++ names2) t
  = results_app (Interactive.search_names names1 t)
                (Interactive.search_names names2 t)
  /\ Package.search_names config (names1 ++ names2) threshold
     = package_results_app (Package.search_names config names1 threshold)
                           (Package.search_names config names2 threshold).
Proof.
  unfold Interactive.search_names, Package.search_names.
  rewrite !fold_left_app. split.
  - apply interactive_fold_shift.
  - apply package_fold_shift.
Qed.

(** On one store, the search of main.py is the search of the package seen
    through the sort and the cut to five. *)
Lemma as_interactive_search_names (names : list str) (t : Q)
  (config : Package.Config) :
  Interactive.search_names names t
  = as_interactive (Package.search_names config names (Some t)).
Proof.
  unfold Interactive.search_names, Package.search_names.
  now rewrite as_interactive_fold.
Qed.

End SearchTheorems.

(** Each resolver fills a collection of its own, from its own variants:
    the two are compared for two stores. *)
Section TwoStores.

Variables main_store package_store : External.

Lemma package_step_stores (t : Q) (r : Package.results) (name : str) :
  (nonblank name = true ->
   @hits_of main_store name = @hits_of package_store name) ->
  @Package.search_step package_store t r name
  = @Package.search_step main_store t r name.
Proof.
  unfold Package.search_step, Package.users_of, nonblank, hits_of.
  intro Hh. destruct (truthy (strip name)); [|reflexivity].
  now rewrite (Hh eq_refl).
Qed.

Lemma package_fold_stores (t : Q) (names : list str) (r : Package.results) :
  (forall n, In n names -> nonblank n = true ->
     @hits_of main_store n = @hits_of package_store n) ->
  fold_left (@Package.search_step package_store t) names r
  = fold_left (@Package.search_step main_store t) names r.
Proof.
  revert r. induction names as [|name names IH]; intros r Hh;
    [reflexivity|].
  simpl. rewrite package_step_stores by (apply Hh; now left).
  apply IH. intros n Hin. apply Hh. now right.
Qed.

(** X5.  Given the same hits, the two resolvers agree: when the two
    stores return the same hits for every non-blank name of the request,
    main.py's results are the package's results for the same threshold,
    with each resolved candidate reduced to its user and each candidate
    list sorted and cut to five. *)
Theorem interactive_is_sorted_package (names : list str) (t : Q)
  (config : Package.Config) :
  (forall n, In n names -> nonblank n = true ->
     @hits_of main_store n = @hits_of package_store n) ->
  @Interactive.search_names main_store names t
  = as_interactive
      (@Package.search_names package_store config names (Some t)).
Proof.
  intro Hh.
  rewrite (@as_interactive_search_names main_store names t config).
  f_equal. unfold Package.search_names. symmetry.
  now apply package_fold_stores.
Qed.

End TwoStores.

(** With stores that differ on a query the results differ: the name is
    resolved by one resolver and left without a match by the other. *)
Example stores_matter :
  Interactive.resolved_names
    (@Interactive.search_names main_env [u "Nicat"] (7 # 10)) = []
  /\ Package.resolved_names
       (@Package.search_names Sample.env Sample.config [u "Nicat"]
          (Some (7 # 10)))
     = [Package.mk_resolved (u "Nicat") Sample.nicat_candidate (700 # 1000)].
Proof. split; vm_compute; reflexivity. Qed.

(** ** The index as a whole *)

Section IndexExtras.

Context `{External}.

Lemma nodup_length_le (l : list str) :
  (List.length (nodup str_eq_dec l) <= List.length l)%nat.
Proof.
  induction l as [|x l IH]; simpl; [lia|].
  destruct (in_dec str_eq_dec x l); simpl; lia.
Qed.

Lemma index_entries_length (user_ : user) (vs : list str) :
  (List.length (index_entries user_ vs) <= List.length vs)%nat.
Proof.
  unfold index_entries. rewrite length_map.
  etransitivity; [apply filter_length_le|apply nodup_length_le].
Qed.

Lemma index_entries_In (user_ : user) (vs : list str) (v : str) (x : user) :
  In (v, x) (index_entries user_ vs) ->
  x = user_ /\ In v vs /\ truthy (strip v) = true.
Proof.
  unfold index_entries. intro Hin. apply in_map_iff in Hin.
  destruct Hin as (v' & E & Hin). inversion E; subst.
  apply filter_In in Hin. destruct Hin as [Hin Hv].
  apply nodup_In in Hin. auto.
Qed.

Lemma package_variants_length (user_ : user) (vs : list str) :
  Package.variants user_ = Ok vs -> List.length vs = 8%nat.
Proof.
  unfold Package.variants.
  destruct (split_ws (lower (full_name user_))); [discriminate|].
  intro E. inversion E. reflexivity.
Qed.

Lemma interactive_variants_length (user_ : user) (vs : list str) :
  Interactive.variants user_ = Ok vs -> List.length vs = 6%nat.
Proof.
  unfold Interactive.variants.
  destruct (split_ws (lower (full_name user_))); [discriminate|].
  intro E. inversion E. reflexivity.
Qed.

(** X6.  Every entry of a built index belongs to a row of the table: its
    text is one of the variants of that row and is not blank; a row
    contributes at most eight entries in the package and at most six in
    main.py. *)
Theorem index_entries_sound (people : list user) :
  (forall entries, Package.index_users people = Ok entries ->
     (forall v x, In (v, x) entries ->
        In x people /\ truthy (strip v) = true
        /\ exists vs, Package.variants x = Ok vs /\ In v vs)
     /\ (List.length entries <= 8 * List.length people)%nat)
  /\ (forall entries, Interactive.index_users people = Ok entries ->
        (forall v x, In (v, x) entries ->
           In x people /\ truthy (strip v) = true
           /\ exists vs, Interactive.variants x = Ok vs /\ In v vs)
        /\ (List.length entries <= 6 * List.length people)%nat).
Proof.
  split.
  - induction people as [|user_ people IH]; intros entries E; simpl in E.
    + inversion E. split; [intros ? ? []|simpl; lia].
    + destruct (Package.variants user_) as [vs|e] eqn:Ev; [|discriminate].
      destruct (Package.index_users people) as [rest|e]; [|discriminate].
      inversion E; subst. destruct (IH rest eq_refl) as [Hin Hlen].
      split.
      * intros v x Hx. apply in_app_iff in Hx. destruct Hx as [Hx|Hx].
        -- apply index_entries_In in Hx. destruct Hx as (-> & Hv & Hb).
           split; [now left|]. split; [assumption|]. eauto.
        -- destruct (Hin v x Hx) as (? & ? & ?). split; [now right|]. auto.
      * rewrite length_app. pose proof (index_entries_length user_ vs).
        rewrite (package_variants_length _ Ev) in *. simpl. lia.
  - induction people as [|user_ people IH]; intros entries E; simpl in E.
    + inversion E. split; [intros ? ? []|simpl; lia].
    + destruct (Interactive.variants user_) as [vs|e] eqn:Ev; [|discriminate].
      destruct (Interactive.index_users people) as [rest|e]; [|discriminate].
      inversion E; subst. destruct (IH rest eq_refl) as [Hin Hlen].
      split.
      * intros v x Hx. apply in_app_iff in Hx. destruct Hx as [Hx|Hx].
        -- apply index_entries_In in Hx. destruct Hx as (-> & Hv & Hb).
           split; [now left|]. split; [assumption|]. eauto.
        -- destruct (Hin v x Hx) as (? & ? & ?). split; [now right|]. auto.
      * rewrite length_app. pose proof (index_entries_length user_ vs).
        rewrite (interactive_variants_length _ Ev) in *. simpl. lia.
Qed.

(** X7.  The index of two tables put together is the two indexes put
    together, and the build fails as soon as one of them fails: a row is
    indexed the same whatever the other rows are. *)
Theorem index_users_app (people1 people2 : list user) :
  Package.index_users (people1 ++ people2)
  = match Package.index_users people1 with
    | Raise e => Raise e
    | Ok entries1 =>
      match Package.index_users people2 with
      | Raise e => Raise e
      | Ok entries2 => Ok (entries1 ++ entries2)
      end
    end.
Proof.
  induction people1 as [|user_ people1 IH]; simpl.
  - destruct (Package.index_users people2); reflexivity.
  - destruct (Package.variants user_) as [vs|e]; [|reflexivity].
    rewrite IH.
    destruct (Package.index_users people1) as [e1|e]; [|reflexivity].
    destruct (Package.index_users people2) as [e2|e]; [|reflexivity].
    now rewrite app_assoc.
Qed.

End IndexExtras.

(** ** Substrings and stripping *)

Section StringFacts.

Lemma char_eqb_refl (c : char) : char_eqb c c = true.
Proof. apply N.eqb_refl. Qed.

Lemma startswith_app (p r : str) : startswith p (p ++ r) = true.
Proof.
  induction p as [|c p IH]; simpl; [reflexivity|].
  now rewrite char_eqb_refl, IH.
Qed.

Lemma startswith_iff (p s : str) :
  startswith p s = true <-> exists r, s = p ++ r.
Proof.
  split.
  - revert s. induction p as [|c p IH]; intros s Hs; simpl in Hs.
    + exists s. reflexivity.
    + destruct s as [|x s]; [discriminate|].
      apply andb_true_iff in Hs. destruct Hs as [Hc Hs].
      apply N.eqb_eq in Hc. subst x.
      destruct (IH s Hs) as (r & ->). exists r. reflexivity.
  - intros (r & ->). apply startswith_app.
Qed.

Lemma contains_iff (x s : str) :
  contains x s = true <-> exists a b, s = a ++ x ++ b.
Proof.
  split.
  - induction s as [|c s IH]; simpl; intro Hc.
    + rewrite orb_false_r in Hc. apply startswith_iff in Hc.
      destruct Hc as (r & E). exists [], r. exact E.
    + apply orb_true_iff in Hc. destruct Hc as [Hc|Hc].
      * apply startswith_iff in Hc. destruct Hc as (r & E).
        exists [], r. exact E.
      * destruct (IH Hc) as (a & b & ->). exists (c :: a), b. reflexivity.
  - intros (a & b & ->). induction a as [|c a IH]; simpl.
    + assert (Hs : startswith x (x ++ b) = true) by apply startswith_app.
      destruct (x ++ b); simpl; now rewrite Hs.
    + rewrite IH. apply orb_true_r.
Qed.

Lemma contains_refl (s : str) : contains s s = true.
Proof. apply contains_iff. exists [], []. now rewrite app_nil_r. Qed.

Lemma contains_nil (s : str) : contains [] s = true.
Proof. apply contains_iff. exists [], s. reflexivity. Qed.

Lemma contains_trans (x y s : str) :
  contains x y = true -> contains y s = true -> contains x s = true.
Proof.
  intros Hx Hy. apply contains_iff in Hx, Hy.
  destruct Hx as (a & b & ->). destruct Hy as (a' & b' & ->).
  apply contains_iff. exists (a' ++ a), (b ++ b').
  now rewrite <- !app_assoc.
Qed.

Lemma contains_app_l (x a b : str) :
  contains x a = true -> contains x (a ++ b) = true.
Proof.
  intro Hx. apply contains_iff in Hx. destruct Hx as (p & q & ->).
  apply contains_iff. exists p, (q ++ b). now rewrite <- !app_assoc.
Qed.

Lemma contains_app_r (x a b : str) :
  contains x b = true -> contains x (a ++ b) = true.
Proof.
  intro Hx. apply contains_iff in Hx. destruct Hx as (p & q & ->).
  apply contains_iff. exists (a ++ p), q. now rewrite <- !app_assoc.
Qed.

Lemma contains_join (sep x : str) (l : list str) :
  In x l -> contains x (join sep l) = true.
Proof.
  induction l as [|y l IH]; [intros []|].
  intros [-> |Hin].
  - destruct l as [|z l]; simpl; [apply contains_refl|].
    apply contains_app_l, contains_refl.
  - destruct l as [|z l]; [destruct Hin|].
    change (join sep (y :: z :: l)) with (y ++ sep ++ join sep (z :: l)).
    apply contains_app_r, contains_app_r. now apply IH.
Qed.

(** [lstrip] drops a run of white space and stops at the first other
    character. *)
Lemma lstrip_split (s : str) :
  exists w, s = w ++ lstrip s /\ forallb isspace w = true.
Proof.
  induction s as [|c s (w & E & Hw)]; simpl.
  - exists []. split; reflexivity.
  - destruct (isspace c) eqn:Ec.
    + exists (c :: w). simpl. rewrite Ec, Hw. split; [now f_equal|reflexivity].
    + exists []. split; reflexivity.
Qed.

Lemma lstrip_head (s : str) (c : char) (r : str) :
  lstrip s = c :: r -> isspace c = false.
Proof.
  induction s as [|x s IH]; simpl; [discriminate|].
  destruct (isspace x) eqn:Ex; [exact IH|].
  intro E. inversion E. now subst.
Qed.

Lemma lstrip_fixed (c : char) (r : str) :
  isspace c = false -> lstrip (c :: r) = c :: r.
Proof. intro Hc. simpl. now rewrite Hc. Qed.

Lemma lstrip_idem (s : str) : lstrip (lstrip s) = lstrip s.
Proof.
  destruct (lstrip s) as [|c r] eqn:E; [reflexivity|].
  apply lstrip_fixed. eapply lstrip_head; eauto.
Qed.

Lemma rstrip_split (s : str) :
  exists w, s = rstrip s ++ w /\ forallb isspace w = true.
Proof.
  unfold rstrip. destruct (lstrip_split (rev s)) as (w & E & Hw).
  exists (rev w). split.
  - rewrite <- rev_app_distr, <- E. now rewrite rev_involutive.
  - now rewrite forallb_rev.
Qed.

Lemma rstrip_idem (s : str) : rstrip (rstrip s) = rstrip s.
Proof.
  unfold rstrip. now rewrite rev_involutive, lstrip_idem.
Qed.

(** [rstrip] keeps the first character of a string that starts with no
    white space. *)
Lemma rstrip_keeps_head (c : char) (r : str) :
  isspace c = false -> exists r', rstrip (c :: r) = c :: r'.
Proof.
  intro Hc. destruct (rstrip_split (c :: r)) as (w & E & Hw).
  destruct (rstrip (c :: r)) as [|x r'] eqn:Er.
  - simpl in E. subst w. simpl in Hw. rewrite Hc in Hw. discriminate.
  - simpl in E. inversion E. subst x. eauto.
Qed.

(** [s.strip().strip()] is [s.strip()]. *)
Lemma strip_idem (s : str) : strip (strip s) = strip s.
Proof.
  unfold strip.
  destruct (lstrip s) as [|c r] eqn:El; [reflexivity|].
  pose proof (@lstrip_head _ _ _ El) as Hc.
  destruct (@rstrip_keeps_head c r Hc) as (r' & Er).
  rewrite Er, (@lstrip_fixed c r' Hc), <- Er. apply rstrip_idem.
Qed.

Lemma rstrip_fixed (s : str) (c : char) :
  isspace c = false -> rstrip (s ++ [c]) = s ++ [c].
Proof.
  intro Hc. unfold rstrip. rewrite rev_app_distr. simpl. rewrite Hc.
  simpl. now rewrite rev_involutive.
Qed.

End StringFacts.

(** ** The clarification merge as a whole *)

Section MergeExtras.

Import Interactive Clarification.
Context `{External}.

(** The shape of every meeting the merge returns. *)
Lemma merge_shape (info : meeting_info) (sr : results) (ans : str)
  (m : meeting) :
  create_meeting_with_resolved_names info sr ans = Ok m ->
  exists l,
    user_details m = resolved_details sr ++ map user_of l
    /\ body m
       = email_body
           (join (u ", ") (resolved_full_names sr ++ map c_full_name l))
           (get_default (mi_subject info) (u "Toplantı"))
           (get_default (mi_purpose info) (u "toplantı düzenleme"))
    /\ forall c, In c l ->
         exists pm, In pm (partial_matches sr) /\ In c (candidates pm).
Proof.
  unfold create_meeting_with_resolved_names.
  destruct (scan_partial_matches (parse_choices ans) (partial_matches sr) _)
    as [[names details]|e] eqn:Es; [|discriminate].
  destruct (@scan_partial_matches_appends _ _ _ _ _ Es) as (l & El & Hl).
  rewrite fold_accept in El. simpl in El. inversion El; subst.
  destruct (schedule _ _ _) as [[st en]|]; [|discriminate].
  intro E. inversion E. simpl. exists l. auto.
Qed.

(** X8.  The merge never invents an attendee: whatever the answer is,
    every attendee of a returned meeting is a user the search had
    resolved or a candidate of one of its partial matches. *)
Theorem merge_attendees_from_session (info : meeting_info) (sr : results)
  (ans : str) (m : meeting) :
  create_meeting_with_resolved_names info sr ans = Ok m ->
  forall x, In x (user_details m) ->
    (exists r, In r (resolved_names sr) /\ x = matched_user r)
    \/ (exists pm c, In pm (partial_matches sr) /\ In c (candidates pm)
                     /\ x = user_of c).
Proof.
  intros Em x Hx. destruct (merge_shape _ _ _ Em) as (l & Ed & _ & Hl).
  rewrite Ed in Hx. apply in_app_iff in Hx. destruct Hx as [Hx|Hx].
  - left. unfold resolved_details in Hx. apply in_map_iff in Hx.
    destruct Hx as (r & <- & Hr). eauto.
  - right. apply in_map_iff in Hx. destruct Hx as (c & <- & Hc).
    destruct (Hl c Hc) as (pm & ? & ?). eauto.
Qed.

Lemma full_names_of_details (sr : results) (l : list candidate) :
  map full_name (resolved_details sr ++ map user_of l)
  = resolved_full_names sr ++ map c_full_name l.
Proof.
  unfold resolved_details, resolved_full_names.
  now rewrite map_app, !map_map.
Qed.

(** X9.  The invitation text of a returned meeting names every attendee
    of that meeting. *)
Theorem merge_body_names_attendees (info : meeting_info) (sr : results)
  (ans : str) (m : meeting) :
  create_meeting_with_resolved_names info sr ans = Ok m ->
  forall x, In x (user_details m) -> contains (full_name x) (body m) = true.
Proof.
  intros Em x Hx. destruct (merge_shape _ _ _ Em) as (l & Ed & Eb & _).
  rewrite Eb. unfold email_body.
  apply contains_app_r. apply contains_app_l.
  apply contains_join. rewrite <- full_names_of_details, <- Ed.
  now apply in_map.
Qed.

Lemma accepted_for_one (s : str) (cs : list candidate) :
  (List.length (accepted_for [s] cs) <= 1)%nat.
Proof.
  unfold accepted_for. cbn [flat_map]. rewrite app_nil_r.
  destruct (first_match s cs); simpl; lia.
Qed.

Lemma accepted_one_length (s : str) (pms : list partial_match) :
  (List.length (accepted [s] pms) <= List.length pms)%nat.
Proof.
  unfold accepted. induction pms as [|pm pms IH]; [simpl; lia|].
  cbn [flat_map List.length]. rewrite length_app.
  pose proof (accepted_for_one s (candidates pm)). lia.
Qed.

(** X10.  A plain-text answer adds at most one attendee for each partial
    match: the meeting has at most as many attendees as resolved names
    and partial matches together. *)
Theorem merge_plain_answer_bound (info : meeting_info) (sr : results)
  (ans : str) (m : meeting) :
  plain ans = true ->
  create_meeting_with_resolved_names info sr ans = Ok m ->
  (List.length (resolved_names sr) <= List.length (user_details m)
   <= List.length (resolved_names sr) + List.length (partial_matches sr))%nat.
Proof.
  intros Hp Em.
  assert (Hs : schedulable info).
  { unfold schedulable. unfold create_meeting_with_resolved_names in Em.
    destruct (scan_partial_matches _ _ _) as [[? ?]|]; [|discriminate].
    destruct (schedule _ _ _); [discriminate|discriminate]. }
  destruct (@merge_strings _ info sr ans [strip ans]
              (@parse_choices_plain _ _ Hp) Hs) as (m' & Em' & Ed).
  rewrite Em in Em'. inversion Em'; subst m'.
  rewrite Ed, length_app, length_map. unfold resolved_details.
  rewrite length_map.
  pose proof (accepted_one_length (strip ans) (partial_matches sr)). lia.
Qed.

End MergeExtras.

Section MergeEdges.

Import Interactive Clarification.
Context `{External}.

Lemma first_match_blank (cs : list candidate) :
  lower [] = [] -> first_match [] cs = hd_error cs.
Proof.
  intro Hl. unfold first_match. destruct cs as [|c cs]; [reflexivity|].
  simpl. unfold matches. rewrite Hl, contains_nil. reflexivity.
Qed.

Lemma accepted_blank (pms : list partial_match) :
  lower [] = [] ->
  accepted [[]] pms = flat_map (fun pm => firstn 1 (candidates pm)) pms.
Proof.
  intro Hl. unfold accepted. induction pms as [|pm pms IH]; [reflexivity|].
  cbn [flat_map]. rewrite IH. f_equal.
  unfold accepted_for. cbn [flat_map]. rewrite app_nil_r.
  rewrite (first_match_blank _ Hl). now destruct (candidates pm).
Qed.

(** X11.  A blank answer does not leave the pending names open: the empty
    string is contained in every name, so the merge takes the first
    candidate of every partial match. *)
Theorem merge_blank_answer_takes_first (info : meeting_info) (sr : results)
  (ans : str) :
  lower [] = [] -> strip ans = [] -> schedulable info ->
  exists m,
    create_meeting_with_resolved_names info sr ans = Ok m
    /\ user_details m
       = resolved_details sr
         ++ map user_of
              (flat_map (fun pm => firstn 1 (candidates pm))
                        (partial_matches sr)).
Proof.
  intros Hl Hs Hsch.
  assert (Hp : plain ans = true).
  { unfold plain.
    assert (Hw : forallb isspace ans = true).
    { pose proof (strip_truthy ans) as Ht. rewrite Hs in Ht. simpl in Ht.
      now destruct (forallb isspace ans). }
    destruct ans as [|c ans]; [reflexivity|].
    simpl in Hw. apply andb_true_iff in Hw. destruct Hw as [Hc _].
    change (u "{") with [123%N]. change (u "[") with [91%N].
    cbn [startswith]. unfold char_eqb. rewrite !andb_true_r.
    destruct (N.eqb_spec 123 c) as [<- |_]; [cbv in Hc; discriminate|].
    destruct (N.eqb_spec 91 c) as [<- |_]; [cbv in Hc; discriminate|].
    reflexivity. }
  destruct (@merge_strings _ info sr ans [strip ans]
              (@parse_choices_plain _ _ Hp) Hsch) as (m & Em & Ed).
  exists m. split; [exact Em|].
  rewrite Ed, Hs. now rewrite (accepted_blank _ Hl).
Qed.

Lemma matches_self (s : str) : matches s s = true.
Proof. unfold matches. now rewrite contains_refl. Qed.

(** X12.  The full name of a listed candidate, given as the choice,
    always selects a candidate: that candidate when no candidate before
    it passes a containment test against the name, and otherwise the
    first that does. *)
Theorem full_name_choice_selects (pre post : list candidate)
  (c : candidate) :
  (exists c', first_match (c_full_name c) (pre ++ c :: post) = Some c'
              /\ matches (c_full_name c) (c_full_name c') = true
              /\ (c' = c \/ In c' pre))
  /\ ((forall x, In x pre ->
         matches (c_full_name c) (c_full_name x) = false) ->
      first_match (c_full_name c) (pre ++ c :: post) = Some c).
Proof.
  unfold first_match. split.
  - induction pre as [|x pre IH]; simpl.
    + rewrite matches_self. exists c. rewrite matches_self. auto.
    + destruct (matches (c_full_name c) (c_full_name x)) eqn:Ex.
      * exists x. auto.
      * destruct IH as (c' & Ef & Em & Hc). exists c'. intuition.
  - induction pre as [|x pre IH]; intro Hno; simpl.
    + now rewrite matches_self.
    + rewrite (Hno x (or_introl eq_refl)). apply IH.
      intros y Hy. apply Hno. now right.
Qed.

Lemma scan_choices_no_candidates (choices : list json) (a : acc) :
  scan_choices choices [] a = Ok a.
Proof. induction choices as [|ch choices IH]; simpl; auto. Qed.

Lemma scan_choices_not_str (choices : list json) (c : candidate)
  (cs : list candidate) (a : acc) :
  forallb is_str choices = false ->
  scan_choices choices (c :: cs) a = Raise AttributeError.
Proof.
  revert a. induction choices as [|ch choices IH]; intros a Hs;
    [discriminate|].
  cbn [scan_choices]. destruct ch; try reflexivity.
  simpl in Hs. rewrite scan_candidates_str.
  destruct (first_match s (c :: cs)); now apply IH.
Qed.

Lemma scan_partial_matches_not_str (choices : list json)
  (pms : list partial_match) (a : acc) :
  forallb is_str choices = false ->
  existsb (fun pm => nonempty (candidates pm)) pms = true ->
  scan_partial_matches choices pms a = Raise AttributeError.
Proof.
  intros Hs. revert a. induction pms as [|pm pms IH]; intros a He;
    [discriminate|].
  simpl in He. cbn [scan_partial_matches].
  destruct (candidates pm) as [|c cs].
  - rewrite scan_choices_no_candidates. now apply IH.
  - now rewrite scan_choices_not_str.
Qed.

Lemma scan_partial_matches_no_candidates (choices : list json)
  (pms : list partial_match) (a : acc) :
  existsb (fun pm => nonempty (candidates pm)) pms = false ->
  scan_partial_matches choices pms a = Ok a.
Proof.
  induction pms as [|pm pms IH]; intro He; [reflexivity|].
  simpl in He. apply orb_false_iff in He. destruct He as [Hc He].
  cbn [scan_partial_matches]. destruct (candidates pm); [|discriminate].
  rewrite scan_choices_no_candidates. now apply IH.
Qed.

(** The answer is read only against a candidate. *)
Lemma merge_answer_unread (info : meeting_info) (sr : results)
  (ans ans' : str) :
  existsb (fun pm => nonempty (candidates pm)) (partial_matches sr) = false ->
  create_meeting_with_resolved_names info sr ans
  = create_meeting_with_resolved_names info sr ans'.
Proof.
  intro Hc. unfold create_meeting_with_resolved_names.
  now rewrite !(scan_partial_matches_no_candidates _ _ _ Hc).
Qed.

(** X13.  A choice that is not a string breaks the merge as soon as one
    partial match has a candidate, wherever the choice stands and
    whatever the other choices match: the merge ends in the error answer
    of [choice.lower()].  When no partial match has a candidate the
    answer is never read, and the output does not depend on it. *)
Theorem non_string_choice_fails (info : meeting_info) (sr : results)
  (ans : str) :
  (existsb (fun pm => nonempty (candidates pm)) (partial_matches sr) = true ->
   forallb is_str (parse_choices ans) = false ->
   create_meeting_with_resolved_names info sr ans = Raise AttributeError)
  /\ (existsb (fun pm => nonempty (candidates pm)) (partial_matches sr)
      = false ->
      forall ans',
        create_meeting_with_resolved_names info sr ans
        = create_meeting_with_resolved_names info sr ans').
Proof.
  split.
  - intros Hc Hs. unfold create_meeting_with_resolved_names.
    now rewrite (scan_partial_matches_not_str _ _ _ Hs Hc).
  - intros Hc ans'. now apply merge_answer_unread.
Qed.

End MergeEdges.

(** ** The other tools of main.py *)

Section ToolExtras.

Import Interactive Clarification.
Context `{External}.

Lemma accepted_nil (s : str) (pms : list partial_match) :
  (forall pm c, In pm pms -> In c (candidates pm) ->
     matches s (c_full_name c) = false) ->
  accepted [s] pms = [].
Proof.
  unfold accepted. induction pms as [|pm pms IH]; intro Hno; [reflexivity|].
  cbn [flat_map]. rewrite IH by (intros pm' c Hpm; apply Hno; now right).
  unfold accepted_for. cbn [flat_map].
  rewrite first_match_none; [reflexivity|].
  intros c Hc. apply (Hno pm c); [now left|assumption].
Qed.

(** X14.  When the answer matches no candidate, the merge returns what
    [complete_meeting_creation] returns for the same request, provided
    the descriptions avoid the two words only the merge reads: "bugün"
    without "yarın" for the day, "akşam" without "sabah" or "öğle" for
    the hour. *)
Theorem merge_without_match_is_completion (info : meeting_info)
  (sr : results) (ans : str) :
  let d := lower (get_default (mi_date_description info) (u "yarın")) in
  let tm :=
    lower (get_default (mi_time_description info) (u "öğleden sonra")) in
  plain ans = true ->
  (forall pm c, In pm (partial_matches sr) -> In c (candidates pm) ->
     matches (strip ans) (c_full_name c) = false) ->
  (contains (u "yarın") d = true \/ contains (u "bugün") d = false) ->
  (contains (u "sabah") tm = true \/ contains (u "öğle") tm = true
   \/ contains (u "akşam") tm = false) ->
  create_meeting_with_resolved_names info sr ans
  = Tools.complete_meeting_creation info sr.
Proof.
  intros d tm Hp Hno Hd Ht.
  unfold create_meeting_with_resolved_names, Tools.complete_meeting_creation.
  rewrite (@parse_choices_plain _ _ Hp).
  change [JStr (strip ans)] with (map JStr [strip ans]).
  rewrite scan_partial_matches_str, (accepted_nil _ _ Hno). simpl fold_left.
  assert (Ed : days_ahead (get_default (mi_date_description info) (u "yarın"))
               = Tools.complete_days_ahead
                   (get_default (mi_date_description info) (u "yarın"))).
  { unfold days_ahead, Tools.complete_days_ahead. fold d.
    destruct (contains (u "yarın") d) eqn:E1; [reflexivity|].
    destruct Hd as [Hd|Hd]; [congruence|]. now rewrite Hd. }
  assert (Eh : hour (get_default (mi_time_description info)
                                 (u "öğleden sonra"))
               = Tools.complete_hour
                   (get_default (mi_time_description info)
                                (u "öğleden sonra"))).
  { unfold hour, Tools.complete_hour. fold tm.
    destruct (contains (u "sabah") tm) eqn:E1; [reflexivity|].
    destruct (contains (u "öğle") tm) eqn:E2; [reflexivity|].
    destruct Ht as [Ht|[Ht|Ht]]; try congruence. now rewrite Ht. }
  now rewrite Ed, Eh.
Qed.

(** X15.  The three readers of a date description agree except on three
    words: [complete_meeting_creation] does not read "bugün" (today) and
    schedules it for the next day, or two weeks ahead when "2 hafta" is
    there too, and only [parse_datetime] gives "hafta" seven days and
    "salı" two.  Every reader answers 0, 1, 2, 7 or 14 days. *)
Theorem date_readers_agree_except (date_desc : str) :
  let merge_days := days_ahead date_desc in
  let complete_days := Tools.complete_days_ahead date_desc in
  let parsed_days := Tools.parse_days_ahead date_desc in
  In parsed_days [0; 1; 2; 7; 14]%Z
  /\ (complete_days = merge_days
      \/ (merge_days = 0 /\ (complete_days = 1 \/ complete_days = 14))%Z)
  /\ (parsed_days = merge_days
      \/ (merge_days = 1 /\ (parsed_days = 7 \/ parsed_days = 2))%Z).
Proof.
  unfold days_ahead, Tools.complete_days_ahead, Tools.parse_days_ahead.
  destruct (contains (u "yarın") (lower date_desc)); [simpl; auto 10|].
  destruct (contains (u "bugün") (lower date_desc)).
  { destruct (contains (u "2 hafta") (lower date_desc)); simpl; auto 10. }
  destruct (contains (u "2 hafta") (lower date_desc)) eqn:E2.
  - assert (Eh : contains (u "hafta") (lower date_desc) = true).
    { apply contains_trans with (y := u "2 hafta"); [reflexivity|exact E2]. }
    rewrite Eh. simpl. auto 10.
  - destruct (contains (u "hafta") (lower date_desc)); [simpl; auto 10|].
    destruct (contains (u "pazartesi") (lower date_desc)); [simpl; auto 10|].
    destruct (contains (u "salı") (lower date_desc)); simpl; auto 10.
Qed.

(** X16.  The readers of a time description agree on "sabah" and "öğle";
    [complete_meeting_creation] alone ignores "akşam", and only
    [parse_datetime] reads an hour before a colon.  The merge always
    answers 9, 12, 14 or 17. *)
Theorem hour_readers_agree_except (py_int : str -> option Z)
  (time_desc : str) :
  let merge_hour := hour time_desc in
  let complete_hour_ := Tools.complete_hour time_desc in
  let parsed_hour := Tools.parse_hour py_int time_desc in
  In merge_hour [9; 12; 14; 17]%Z
  /\ (complete_hour_ = merge_hour
      \/ (merge_hour = 17 /\ complete_hour_ = 14)%Z)
  /\ (parsed_hour = merge_hour
      \/ (merge_hour = 14%Z /\ contains (u ":") time_desc = true
          /\ py_int (split_first (u ":") time_desc) = Some parsed_hour)).
Proof.
  unfold hour, Tools.complete_hour, Tools.parse_hour.
  destruct (contains (u "sabah") (lower time_desc)); [simpl; auto 10|].
  destruct (contains (u "öğle") (lower time_desc)); [simpl; auto 10|].
  destruct (contains (u "akşam") (lower time_desc)); [simpl; auto 10|].
  destruct (contains (u ":") time_desc); [|simpl; auto 10].
  destruct (py_int _) as [h|] eqn:E; simpl; auto 10.
Qed.

(** X17.  The [search_names] tool hands the resolver only names that are
    stripped and not blank, so the resolver skips none of them: resolved
    and pending names together count the names of the request. *)
Theorem tool_names_clean (attendee_names : str) :
  Forall (fun n => strip n = n /\ nonblank n = true)
         (Tools.tool_names attendee_names)
  /\ (List.length
        (resolved_names (Tools.search_names_tool attendee_names))
      + List.length
          (ambiguous_names (Tools.search_names_tool attendee_names))
      = List.length (Tools.tool_names attendee_names))%nat.
Proof.
  assert (Hall : Forall (fun n => strip n = n /\ nonblank n = true)
                        (Tools.tool_names attendee_names)).
  { unfold Tools.tool_names. apply Forall_forall. intros n Hn.
    apply in_flat_map in Hn. destruct Hn as (x & _ & Hn).
    destruct (truthy (strip x)) eqn:Ex; [|destruct Hn].
    destruct Hn as [<- |[]]. unfold nonblank. now rewrite strip_idem. }
  split; [exact Hall|].
  unfold Tools.search_names_tool.
  destruct (interactive_buckets default_threshold
              (Tools.tool_names attendee_names) empty_results)
    as (H1 & _ & H3).
  fold (search_names (Tools.tool_names attendee_names) default_threshold)
    in H1, H3.
  simpl in H1, H3. rewrite <- (length_map input_name), H1, H3.
  rewrite split_nonblank.
  generalize (Tools.tool_names attendee_names) Hall. clear.
  induction 1 as [|n l [_ Hn] _ IH]; simpl; [reflexivity|].
  rewrite Hn. simpl. now rewrite IH.
Qed.

(** X18.  [check_clarification] after a search asks for a choice exactly
    when a non-blank name is pending, and lets the request proceed
    exactly when every non-blank name is resolved. *)
Theorem clarification_iff_pending (names : list str) (t : Q) :
  let R := search_names names t in
  (names_of t is_pending names = [] ->
     exists message, Tools.check_clarification R = Tools.Proceed message)
  /\ (names_of t is_pending names <> [] ->
      Tools.check_clarification R
      = Tools.NeedsClarification (strip (Tools.prompt_text R)) R).
Proof.
  intro R. unfold Tools.check_clarification.
  assert (Ef : needs_clarification R = nonempty (ambiguous_names R)).
  { unfold R, search_names. now apply interactive_flag_fold. }
  destruct (interactive_buckets t names empty_results) as (_ & _ & H3).
  fold (search_names names t) in H3. fold R in H3. simpl in H3.
  rewrite Ef, H3. split; intro Hp.
  - rewrite Hp. simpl. eauto.
  - destruct (names_of t is_pending names); [congruence|reflexivity].
Qed.

End ToolExtras.

(** ** The prompt and its way back *)

Section PromptFacts.

Import Interactive Clarification.

Lemma uint_codes_digits (d : Decimal.uint) : Forall digit (Tools.uint_codes d).
Proof.
  induction d; simpl; constructor; try assumption; unfold digit; lia.
Qed.

Lemma uint_codes_nonnil (d : Decimal.uint) :
  d <> Decimal.Nil -> Tools.uint_codes d <> [].
Proof. destruct d; simpl; congruence. Qed.

Lemma revapp_nonnil (d acc : Decimal.uint) :
  acc <> Decimal.Nil -> Decimal.revapp d acc <> Decimal.Nil.
Proof.
  revert acc. induction d; intros acc Ha; simpl; try assumption;
    apply IHd; discriminate.
Qed.

Lemma little_succ_nonnil (d : Decimal.uint) :
  Decimal.Little.succ d <> Decimal.Nil.
Proof. destruct d; simpl; discriminate. Qed.

Lemma to_little_uint_nonnil (n : nat) (acc : Decimal.uint) :
  acc <> Decimal.Nil -> Nat.to_little_uint n acc <> Decimal.Nil.
Proof.
  revert acc. induction n as [|n IH]; intros acc Ha; simpl; [assumption|].
  apply IH, little_succ_nonnil.
Qed.

Lemma to_uint_nonnil (n : nat) : Nat.to_uint n <> Decimal.Nil.
Proof.
  unfold Nat.to_uint, Decimal.rev.
  assert (Hn : Nat.to_little_uint n Decimal.zero <> Decimal.Nil)
    by (apply to_little_uint_nonnil; discriminate).
  destruct (Nat.to_little_uint n Decimal.zero); try congruence;
    simpl; apply revapp_nonnil; discriminate.
Qed.

(** The decimal text of a number: digits, and at least one. *)
Lemma str_of_nat_digits (n : nat) :
  exists d ds, Tools.str_of_nat n = d :: ds /\ Forall digit (d :: ds).
Proof.
  unfold Tools.str_of_nat.
  pose proof (uint_codes_digits (Nat.to_uint n)) as Hd.
  pose proof (uint_codes_nonnil (to_uint_nonnil n)) as Hn.
  destruct (Tools.uint_codes (Nat.to_uint n)) as [|d ds]; [congruence|].
  eauto.
Qed.

Lemma digit_not_space (c : char) : digit c -> isspace c = false.
Proof.
  unfold digit, isspace. intro Hc.
  repeat match goal with
         | |- context [(?a <=? ?b)%N] =>
           destruct (N.leb_spec a b); try lia
         | |- context [(?a =? ?b)%N] =>
           destruct (N.eqb_spec a b); try lia
         end; reflexivity.
Qed.

(** The text before [". "] when only digits come first. *)
Lemma partition_after_digits (ds rest : str) :
  Forall digit ds ->
  partition_at (u ". ") (ds ++ u ". " ++ rest) = Some (ds, rest).
Proof.
  change (u ". ") with [46%N; 32%N].
  change ([46%N; 32%N] ++ rest) with (46%N :: 32%N :: rest).
  induction 1 as [|d ds Hd _ IH]; [reflexivity|].
  cbn [app partition_at startswith]. rewrite IH.
  unfold char_eqb. unfold digit in Hd.
  destruct (N.eqb_spec 46 d); [lia|reflexivity].
Qed.

(** The text before [" ("] when the name holds no [" (". *)
Lemma partition_after_name (name rest : str) :
  contains (u " (") name = false ->
  partition_at (u " (") (name ++ u " (" ++ rest) = Some (name, rest).
Proof.
  change (u " (") with [32%N; 40%N].
  change ([32%N; 40%N] ++ rest) with (32%N :: 40%N :: rest).
  induction name as [|c name IH]; intro Hn; [reflexivity|].
  cbn [contains] in Hn. apply orb_false_iff in Hn. destruct Hn as [Hs Hn].
  cbn [app partition_at]. rewrite (IH Hn).
  assert (Hf : startswith [32%N; 40%N] (c :: name ++ 32%N :: 40%N :: rest)
               = false).
  { cbn [startswith] in *. unfold char_eqb in *.
    destruct (N.eqb_spec 32 c) as [Ec|]; [|reflexivity]. simpl in *.
    destruct name as [|x name]; simpl in *; [reflexivity|exact Hs]. }
  now rewrite Hf.
Qed.

Lemma contains_mid (x a b : str) : contains x (a ++ x ++ b) = true.
Proof. apply contains_iff. eauto. Qed.

(** X19.  A line of the prompt, copied back as an answer line, is read
    as the full name of its candidate, when that name is stripped and
    holds no [" (":] the numbering and the e-mail address are taken off. *)
Theorem prompt_line_round_trip (i : nat) (c : candidate) :
  strip (c_full_name c) = c_full_name c ->
  contains (u " (") (c_full_name c) = false ->
  Tools.candidate_line i c = prompt_line i c ++ nl
  /\ parse_line (prompt_line i c) = [c_full_name c].
Proof.
  intros Hs Hn. split.
  { unfold Tools.candidate_line, prompt_line. now rewrite <- !app_assoc. }
  unfold parse_line, prompt_line.
  destruct (str_of_nat_digits i) as (d & ds & -> & Hd).
  set (rest := c_full_name c ++ u " (" ++ c_email_address c ++ u ")").
  set (line := (d :: ds) ++ u ". " ++ rest).
  assert (Hd0 : isspace d = false)
    by (apply digit_not_space; now inversion Hd).
  assert (El : strip (u "  " ++ line) = line).
  { unfold strip. change (u "  " ++ line) with (32%N :: 32%N :: line).
    change (lstrip (32%N :: 32%N :: line)) with (lstrip line).
    unfold line at 1. cbn [app]. rewrite (@lstrip_fixed d _ Hd0).
    change (d :: ds ++ u ". " ++ rest) with line.
    assert (Eend : line
              = ((d :: ds) ++ u ". " ++ c_full_name c ++ u " ("
                 ++ c_email_address c) ++ [41%N]).
    { unfold line, rest. now rewrite <- !app_assoc. }
    rewrite Eend. apply rstrip_fixed. reflexivity. }
  rewrite El. change (truthy line) with true. cbv iota.
  unfold name_part. unfold line at 1. rewrite contains_mid.
  unfold split_rest. unfold line. rewrite (@partition_after_digits _ rest Hd).
  unfold split_first, rest. rewrite (@partition_after_name _ _ Hn).
  now rewrite Hs.
Qed.

End PromptFacts.

Section PromptListing.

Import Interactive Clarification.

Lemma lstrip_stops (rb rx : str) (c : char) :
  isspace c = false -> exists p, lstrip (rb ++ c :: rx) = p ++ c :: rx.
Proof.
  intro Hc. induction rb as [|y rb (p & IH)]; simpl.
  - rewrite Hc. exists []. reflexivity.
  - destruct (isspace y).
    + exists p. exact IH.
    + exists (y :: rb). reflexivity.
Qed.

(** [rstrip] keeps everything up to a character that is no white space. *)
Lemma rstrip_keeps (x b : str) (c : char) :
  isspace c = false -> exists b', rstrip (x ++ c :: b) = x ++ c :: b'.
Proof.
  intro Hc. unfold rstrip.
  rewrite rev_app_distr. simpl. rewrite <- app_assoc. simpl.
  destruct (@lstrip_stops (rev b) (rev x) c Hc) as (p & ->).
  exists (rev p). rewrite rev_app_distr. simpl.
  now rewrite rev_involutive, <- app_assoc.
Qed.

Lemma candidate_lines_hold (cs : list candidate) (k i : nat)
  (c : candidate) :
  nth_error cs k = Some c ->
  exists a b, Tools.candidate_lines i cs
              = a ++ Tools.candidate_line (i + k) c ++ b.
Proof.
  revert k i. induction cs as [|c0 cs IH]; intros [|k] i Hk; simpl in Hk;
    try discriminate.
  - inversion Hk; subst. exists [], (Tools.candidate_lines (S i) cs).
    now rewrite Nat.add_0_r.
  - destruct (IH k (S i) Hk) as (a & b & E).
    exists (Tools.candidate_line i c0 ++ a), b.
    cbn [Tools.candidate_lines]. rewrite E, <- app_assoc.
    now rewrite Nat.add_succ_r.
Qed.

Lemma flat_map_holds (A : Type) (f : A -> str) (l : list A) (x : A) :
  In x l -> exists a b, flat_map f l = a ++ f x ++ b.
Proof.
  induction l as [|y l IH]; [intros []|]. intros [-> |Hin]; simpl.
  - exists [], (flat_map f l). reflexivity.
  - destruct (IH Hin) as (a & b & ->). exists (f y ++ a), b.
    now rewrite <- app_assoc.
Qed.

Lemma contains_rstrip (x s : str) (c : char) :
  isspace c = false -> contains (x ++ [c]) s = true ->
  contains (x ++ [c]) (rstrip s) = true.
Proof.
  intros Hc Hx. apply contains_iff in Hx. destruct Hx as (a & b & ->).
  assert (E : a ++ (x ++ [c]) ++ b = (a ++ x) ++ c :: b)
    by (now rewrite <- !app_assoc).
  rewrite E. destruct (@rstrip_keeps (a ++ x) b c Hc) as (b' & ->).
  apply contains_iff. exists a, b'. now rewrite <- !app_assoc.
Qed.

Lemma prompt_text_head (sr : results) :
  exists r, Tools.prompt_text sr = 76%N :: r.
Proof.
  unfold Tools.prompt_text.
  assert (E : exists t, u "Lütfen seçim yapın:" = 76%N :: t)
    by (eexists; vm_compute; reflexivity).
  destruct E as (t & ->). eexists. cbn [app]. reflexivity.
Qed.

Lemma prompt_line_end (i : nat) (c : candidate) :
  prompt_line i c
  = (u "  " ++ Tools.str_of_nat i ++ u ". " ++ c_full_name c ++ u " ("
     ++ c_email_address c) ++ [41%N].
Proof. unfold prompt_line. now rewrite <- !app_assoc. Qed.

(** X20.  The prompt lists every candidate of every partial match: the
    stripped text holds, for the candidate at position [k] of a partial
    match, the line with the number [k + 1], the full name and the
    e-mail address in parentheses. *)
Theorem prompt_lists_every_candidate (sr : results) (pm : partial_match)
  (k : nat) (c : candidate) :
  In pm (partial_matches sr) -> nth_error (candidates pm) k = Some c ->
  contains (prompt_line (S k) c) (strip (Tools.prompt_text sr)) = true.
Proof.
  intros Hpm Hk.
  destruct (@candidate_lines_hold _ k 1 c Hk) as (a1 & b1 & E1).
  destruct (@flat_map_holds _ Tools.match_block _ pm Hpm) as (a2 & b2 & E2).
  assert (Hc : contains (prompt_line (S k) c) (Tools.prompt_text sr) = true).
  { unfold Tools.prompt_text. do 3 apply contains_app_r. rewrite E2.
    apply contains_app_r, contains_app_l. unfold Tools.match_block.
    do 4 apply contains_app_r. apply contains_app_l. rewrite E1.
    apply contains_app_r, contains_app_l.
    change (1 + k)%nat with (S k).
    assert (El : Tools.candidate_line (S k) c = prompt_line (S k) c ++ nl).
    { unfold Tools.candidate_line, prompt_line. now rewrite <- !app_assoc. }
    rewrite El. apply contains_app_l, contains_refl. }
  unfold strip. destruct (prompt_text_head sr) as (r & Eh).
  assert (El : lstrip (Tools.prompt_text sr) = Tools.prompt_text sr).
  { rewrite Eh. apply lstrip_fixed. reflexivity. }
  rewrite El. rewrite prompt_line_end in *.
  apply contains_rstrip; [reflexivity|exact Hc].
Qed.

End PromptListing.

(** ** The configuration *)

Section ConfigurationFacts.

Import Configuration.

Lemma has_text_truthy (s : str) : truthy (strip s) = has_text s.
Proof.
  rewrite strip_truthy. unfold has_text.
  induction s as [|c s IH]; simpl; [reflexivity|].
  destruct (isspace c); simpl; [exact IH|reflexivity].
Qed.

Variable py_int : str -> option Z.
Variable py_float : str -> option Q.

Lemma get_config_calls_cached (c : Config) (envs : list environ) :
  get_config_calls py_int py_float (Some c) envs = map (fun _ => Ok c) envs.
Proof.
  induction envs as [|e envs IH]; simpl; [reflexivity|]. now rewrite IH.
Qed.

(** [Config()] raises nothing but [ValueError]. *)
Lemma init_raises_value_error (env : environ) (e : exn) :
  init py_int py_float env = Raise e -> e = ValueError.
Proof.
  unfold init. destruct (py_int _); [|congruence].
  destruct (py_float _); congruence.
Qed.

Lemma get_config_calls_failing (failing rest : list environ) :
  Forall (fun env => init py_int py_float env = Raise ValueError) failing ->
  get_config_calls py_int py_float None (failing ++ rest)
  = map (fun _ => Raise ValueError) failing
    ++ get_config_calls py_int py_float None rest.
Proof.
  induction 1 as [|env failing Hf _ IH]; [reflexivity|].
  cbn [app get_config_calls get_config map]. rewrite Hf. now rewrite IH.
Qed.

(** X21.  [get_config] keeps the first configuration that [Config()]
    builds.  While [Config()] raises, on a duration or a threshold that is
    no number, nothing is kept and every call raises [ValueError].  The
    first call on which it builds a configuration assigns the global
    before the validation: that call raises when the validation fails,
    and every later call returns that configuration without validating
    it, whatever the environment has become. *)
Theorem get_config_keeps_first_built (failing : list environ) :
  Forall (fun env => init py_int py_float env = Raise ValueError) failing ->
  get_config_calls py_int py_float None failing
  = map (fun _ => Raise ValueError) failing
  /\ forall (good : environ) (later : list environ) (c : Config),
       init py_int py_float good = Ok c ->
       get_config_calls py_int py_float None (failing ++ good :: later)
       = map (fun _ => Raise ValueError) failing
         ++ (if validate c then Ok c else Raise ValueError)
         :: map (fun _ => Ok c) later.
Proof.
  intro Hf. split.
  - rewrite <- (app_nil_r failing) at 1.
    rewrite (get_config_calls_failing [] Hf). apply app_nil_r.
  - intros good later c Hg. rewrite (get_config_calls_failing _ Hf).
    f_equal. cbn [get_config_calls get_config]. rewrite Hg.
    destruct (validate c); cbn [negb];
      now rewrite get_config_calls_cached.
Qed.

(** X22.  [validate] accepts a configuration exactly when each of the four
    Azure settings is set and holds a character that is no white space. *)
Theorem validate_needs_text (c : Config) :
  validate c = true
  <-> Forall (fun field => exists s, field = Some s /\ has_text s = true)
             (required_fields c).
Proof.
  unfold validate. change [azure_endpoint c; azure_api_key c;
                           azure_deployment_name c; azure_api_version c]
    with (required_fields c).
  rewrite forallb_forall, Forall_forall.
  split; intros Hall field Hin; specialize (Hall field Hin).
  - destruct field as [s|]; [|discriminate]. exists s. split; [reflexivity|].
    simpl in Hall. now rewrite <- has_text_truthy.
  - destruct Hall as (s & -> & Hs). simpl. now rewrite has_text_truthy.
Qed.

End ConfigurationFacts.

(** A duration that is no number fails every call; the blank key fails
    one call only, and the next call returns the rejected configuration
    although the key is set by then. *)
Example get_config_blank_key :
  Configuration.init digits_int two_floats bad_duration_env
  = Raise ValueError
  /\ Configuration.init digits_int two_floats blank_key_env
     = Ok blank_key_config
  /\ Configuration.validate blank_key_config = false
  /\ get_config_calls digits_int two_floats None
       [bad_duration_env; bad_duration_env]
     = [Raise ValueError; Raise ValueError]
  /\ get_config_calls digits_int two_floats None
       [bad_duration_env; blank_key_env; keyed_env]
     = [Raise ValueError; Raise ValueError; Ok blank_key_config].
Proof. repeat split; vm_compute; reflexivity. Qed.


(** ** The further properties on the sample data *)

Section SampleInstances.

Import Interactive Clarification.

Lemma groups_bounded_by_hits_witness :
  (List.length (@hits_of Sample.env (u "Ahmet")) <= 10)%nat
  /\ (List.length (@Package.users_of Sample.env (7 # 10) (u "Ahmet"))
      <= 10)%nat.
Proof.
  assert (Hh : (List.length (@hits_of Sample.env (u "Ahmet")) <= 10)%nat)
    by (vm_compute; lia).
  split; [exact Hh|].
  exact (proj2 (@groups_bounded_by_hits Sample.env (7 # 10) (u "Ahmet")) Hh).
Defined.

Lemma reported_similarity_witness :
  round3 (7 # 10) == 7 # 10
  /\ Forall (fun c => 7 # 10 <= similarity c)
            (@Package.users_of Sample.env (7 # 10) (u "Ahmet")).
Proof.
  assert (Hr : round3 (7 # 10) == 7 # 10) by (vm_compute; reflexivity).
  split; [exact Hr|].
  exact (@reported_similarity_clears_threshold Sample.env (7 # 10)
           (u "Ahmet") _ Hr (or_introl eq_refl)).
Defined.

Lemma needs_clarification_witness :
  forallb (fun n => negb (nonblank n)) [u "  "; []] = true
  /\ @Interactive.search_names Sample.env [u "  "; []] (7 # 10)
     = Interactive.empty_results.
Proof.
  assert (Hb : forallb (fun n => negb (nonblank n)) [u "  "; []] = true)
    by (vm_compute; reflexivity).
  split; [exact Hb|].
  exact (proj1 (proj2 (proj2 (@needs_clarification_iff_pending Sample.env
                                [u "  "; []] (7 # 10) Sample.config None))
                      Hb)).
Defined.

Lemma index_entries_witness :
  exists entries,
    @Package.index_users Sample.env [Sample.ahmet_yilmaz] = Ok entries
    /\ (List.length entries <= 8 * 1)%nat.
Proof.
  destruct (@Package.index_users Sample.env [Sample.ahmet_yilmaz])
    as [entries|e] eqn:E; [|vm_compute in E; discriminate].
  exists entries. split; [reflexivity|].
  exact (proj2 (proj1 (@index_entries_sound Sample.env [Sample.ahmet_yilmaz])
                      entries E)).
Defined.

Lemma merge_attendees_witness :
  exists m,
    @create_meeting_with_resolved_names Sample.env Sample.info Sample.session
      (u "Ahmet Kaya") = Ok m
    /\ forall x, In x (user_details m) ->
         (exists r, In r (resolved_names Sample.session)
                    /\ x = matched_user r)
         \/ (exists pm c, In pm (partial_matches Sample.session)
                          /\ In c (candidates pm) /\ x = user_of c).
Proof.
  destruct (@create_meeting_with_resolved_names Sample.env Sample.info
              Sample.session (u "Ahmet Kaya")) as [m|e] eqn:E;
    [|vm_compute in E; discriminate].
  exists m. split; [reflexivity|].
  exact (@merge_attendees_from_session Sample.env Sample.info Sample.session
           (u "Ahmet Kaya") m E).
Defined.

Lemma merge_body_witness :
  exists m,
    @create_meeting_with_resolved_names Sample.env Sample.info Sample.session
      (u "Ahmet Kaya") = Ok m
    /\ forall x, In x (user_details m) ->
         contains (full_name x) (body m) = true.
Proof.
  destruct (@create_meeting_with_resolved_names Sample.env Sample.info
              Sample.session (u "Ahmet Kaya")) as [m|e] eqn:E;
    [|vm_compute in E; discriminate].
  exists m. split; [reflexivity|].
  exact (@merge_body_names_attendees Sample.env Sample.info Sample.session
           (u "Ahmet Kaya") m E).
Defined.

Lemma merge_plain_answer_witness :
  plain (u "Ahmet Kaya") = true
  /\ exists m,
       @create_meeting_with_resolved_names Sample.env Sample.info
         Sample.session (u "Ahmet Kaya") = Ok m
       /\ (1 <= List.length (user_details m) <= 1 + 1)%nat.
Proof.
  split; [reflexivity|].
  destruct (@create_meeting_with_resolved_names Sample.env Sample.info
              Sample.session (u "Ahmet Kaya")) as [m|e] eqn:E;
    [|vm_compute in E; discriminate].
  exists m. split; [reflexivity|].
  exact (@merge_plain_answer_bound Sample.env Sample.info Sample.session
           (u "Ahmet Kaya") m eq_refl E).
Defined.

Lemma merge_blank_answer_witness :
  strip (u " ") = []
  /\ @schedulable Sample.env Sample.info
  /\ exists m,
       @create_meeting_with_resolved_names Sample.env Sample.info
         Sample.session (u " ") = Ok m
       /\ user_details m
          = resolved_details Sample.session
            ++ map user_of
                 (flat_map (fun pm => firstn 1 (candidates pm))
                           (partial_matches Sample.session)).
Proof.
  split; [reflexivity|]. split; [exact sample_schedulable|].
  exact (@merge_blank_answer_takes_first Sample.env Sample.info
           Sample.session (u " ") eq_refl eq_refl sample_schedulable).
Defined.

Lemma full_name_choice_witness :
  @first_match Sample.env (u "Ahmet Kaya")
    ([mk_candidate 1 (u "Ahmet Yılmaz") (u "ahmet.yilmaz@company.com")
        (900 # 1000)] ++ Sample.kaya :: [])
  = Some Sample.kaya.
Proof.
  apply (proj2 (@full_name_choice_selects Sample.env
                  [mk_candidate 1 (u "Ahmet Yılmaz")
                     (u "ahmet.yilmaz@company.com") (900 # 1000)]
                  [] Sample.kaya)).
  intros x [<- |[]]. vm_compute. reflexivity.
Defined.

Lemma non_string_choice_witness :
  existsb (fun pm => nonempty (candidates pm))
          (partial_matches Sample.session) = true
  /\ forallb is_str (@parse_choices Sample.env (u "[1]")) = false
  /\ @create_meeting_with_resolved_names Sample.env Sample.info
       Sample.session (u "[1]") = Raise AttributeError.
Proof.
  assert (Hc : existsb (fun pm => nonempty (candidates pm))
                       (partial_matches Sample.session) = true)
    by (vm_compute; reflexivity).
  assert (Hs : forallb is_str (@parse_choices Sample.env (u "[1]")) = false)
    by (vm_compute; reflexivity).
  split; [exact Hc|]. split; [exact Hs|].
  exact (proj1 (@non_string_choice_fails Sample.env Sample.info
                  Sample.session (u "[1]")) Hc Hs).
Defined.

Lemma interactive_is_sorted_package_witness :
  (forall n, In n [u "Ahmet"; u " "] -> nonblank n = true ->
     @hits_of main_env n = @hits_of Sample.env n)
  /\ @Interactive.search_names main_env [u "Ahmet"; u " "] (7 # 10)
     = as_interactive
         (@Package.search_names Sample.env Sample.config [u "Ahmet"; u " "]
            (Some (7 # 10))).
Proof.
  assert (Hh : forall n, In n [u "Ahmet"; u " "] -> nonblank n = true ->
                 @hits_of main_env n = @hits_of Sample.env n).
  { intros n [<- |[<- |[]]] Hn; vm_compute; reflexivity. }
  split; [exact Hh|].
  exact (@interactive_is_sorted_package main_env Sample.env
           [u "Ahmet"; u " "] (7 # 10) Sample.config Hh).
Defined.

Lemma get_config_keeps_first_built_witness :
  Forall (fun env => Configuration.init digits_int two_floats env
                     = Raise ValueError) [bad_duration_env]
  /\ Configuration.init digits_int two_floats blank_key_env
     = Ok blank_key_config
  /\ get_config_calls digits_int two_floats None
       ([bad_duration_env] ++ blank_key_env :: [keyed_env])
     = map (fun _ => Raise ValueError) [bad_duration_env]
       ++ (if Configuration.validate blank_key_config
           then Ok blank_key_config else Raise ValueError)
       :: map (fun _ => Ok blank_key_config) [keyed_env].
Proof.
  assert (Hf : Forall (fun env => Configuration.init digits_int two_floats env
                                  = Raise ValueError) [bad_duration_env]).
  { constructor; [vm_compute; reflexivity|constructor]. }
  assert (Hg : Configuration.init digits_int two_floats blank_key_env
               = Ok blank_key_config) by (vm_compute; reflexivity).
  split; [exact Hf|]. split; [exact Hg|].
  exact (proj2 (@get_config_keeps_first_built digits_int two_floats
                  [bad_duration_env] Hf)
               blank_key_env [keyed_env] blank_key_config Hg).
Defined.

Lemma merge_without_match_witness :
  plain (u "Mehmet") = true
  /\ @create_meeting_with_resolved_names Sample.env Sample.info
       Sample.session (u "Mehmet")
     = @Tools.complete_meeting_creation Sample.env Sample.info Sample.session.
Proof.
  split; [reflexivity|].
  apply (@merge_without_match_is_completion Sample.env Sample.info
           Sample.session (u "Mehmet")).
  - reflexivity.
  - intros pm c [<- |[]] Hc. simpl in Hc.
    destruct Hc as [<- |[<- |[<- |[]]]]; vm_compute; reflexivity.
  - left. vm_compute. reflexivity.
  - right. left. vm_compute. reflexivity.
Defined.

Lemma clarification_witness :
  @names_of Sample.env (7 # 10) is_pending [u "Ahmet"] <> []
  /\ exists text R,
       Tools.check_clarification
         (@search_names Sample.env [u "Ahmet"] (7 # 10))
       = Tools.NeedsClarification text R.
Proof.
  assert (Hp : @names_of Sample.env (7 # 10) is_pending [u "Ahmet"] <> [])
    by (vm_compute; discriminate).
  split; [exact Hp|]. eexists. eexists.
  exact (proj2 (@clarification_iff_pending Sample.env [u "Ahmet"] (7 # 10))
               Hp).
Defined.

Lemma prompt_line_witness :
  strip (c_full_name Sample.kaya) = c_full_name Sample.kaya
  /\ contains (u " (") (c_full_name Sample.kaya) = false
  /\ parse_line (prompt_line 2 Sample.kaya) = [u "Ahmet Kaya"].
Proof.
  assert (Hs : strip (c_full_name Sample.kaya) = c_full_name Sample.kaya)
    by (vm_compute; reflexivity).
  assert (Hn : contains (u " (") (c_full_name Sample.kaya) = false)
    by (vm_compute; reflexivity).
  split; [exact Hs|]. split; [exact Hn|].
  exact (proj2 (@prompt_line_round_trip 2 Sample.kaya Hs Hn)).
Defined.

Lemma prompt_lists_witness :
  contains (prompt_line 1 Sample.kaya)
           (strip (Tools.prompt_text Sample.session)) = true.
Proof.
  apply (@prompt_lists_every_candidate Sample.session
           (mk_partial (u "Ahmet") Sample.ahmet_candidates) 0 Sample.kaya).
  - left. reflexivity.
  - reflexivity.
Defined.

Lemma validate_needs_text_witness :
  Configuration.validate keyed_config = true
  /\ Forall (fun field => exists s, field = Some s /\ has_text s = true)
            (required_fields keyed_config).
Proof.
  assert (Hv : Configuration.validate keyed_config = true)
    by (vm_compute; reflexivity).
  split; [exact Hv|].
  exact (proj1 (validate_needs_text keyed_config) Hv).
Defined.

End SampleInstances.
